(** * Election scraper (main.py): a shallow embedding and its properties

    The program crawls a two-level results site, extracts per-district
    statistics and per-party vote counts, and writes one flat CSV table.
    This file embeds the functions of [main.py] and proves the properties
    claimed about them.

    Conventions.
    - A Python [str] is a list of Unicode code points ([pystr]).
    - A Python [int] is a [Z].
    - A Python [dict] with string keys is a [gmap pystr _]; a [set] is a [gset].
    - [list.sort(key=...)] is the stable sort [sort_by].
    - The parsed document is the tree [node]; the queries of the parsing
      library used by the program ([find], [find_all], [.text], [.get]) are
      functions over that tree.
    - Page retrieval, [sys.exit] and the file written are effects of the
      monad [M]: a trace of events and a result. *)

From Stdlib Require Import ZArith.
From stdpp Require Import base list gmap strings sorting.

Local Open Scope Z_scope.
Set Warnings "-register-all,-clear-no-such-hyp".

(** ** Python strings *)

Abbreviation pystr := (list N).

(** An ASCII literal as a Python string. *)
Definition str (s : string) : pystr :=
  map Ascii.N_of_ascii (String.list_ascii_of_string s).

(** The non-breaking space ['\xa0']. *)
Definition nbsp : N := 160%N.

(** [str.isspace] on one character: the code points CPython treats as
    whitespace. *)
Definition isspace (c : N) : bool :=
  ((9 <=? c) && (c <=? 13) || (28 <=? c) && (c <=? 32)
   || (c =? 133) || (c =? 160) || (c =? 5760)
   || (8192 <=? c) && (c <=? 8202)
   || (c =? 8232) || (c =? 8233) || (c =? 8239) || (c =? 8287)
   || (c =? 12288))%N.

Fixpoint lstrip (s : pystr) : pystr :=
  match s with
  | [] => []
  | c :: s' => if isspace c then lstrip s' else s
  end.

Definition rstrip (s : pystr) : pystr := reverse (lstrip (reverse s)).

(** [s.strip()] *)
Definition strip (s : pystr) : pystr := rstrip (lstrip s).

(** [s.replace('\xa0', '')] *)
Definition remove_nbsp (s : pystr) : pystr :=
  filter (λ c, c ≠ nbsp) s.

(** [needle in s] for strings. *)
Fixpoint is_prefix (p s : pystr) : bool :=
  match p, s with
  | [], _ => true
  | _ :: _, [] => false
  | a :: p', b :: s' => bool_decide (a = b) && is_prefix p' s'
  end.

Fixpoint contains (needle s : pystr) : bool :=
  is_prefix needle s ||
  match s with
  | [] => false
  | _ :: s' => contains needle s'
  end.

(** No whitespace at either end. *)
Definition trimmed (s : pystr) : Prop :=
  (∀ c, head s = Some c → isspace c = false)
  ∧ (∀ c, last s = Some c → isspace c = false).

(** ** [list.sort(key=...)]: a stable sort by an integer key *)

Section sorting.
Context {A : Type} (key : A → Z).

Fixpoint insert_by (x : A) (l : list A) : list A :=
  match l with
  | [] => [x]
  | y :: l' =>
      if bool_decide (key x ≤ key y) then x :: y :: l'
      else y :: insert_by x l'
  end.

Definition sort_by (l : list A) : list A := foldr insert_by [] l.

Definition key_le (x y : A) : Prop := key x ≤ key y.
End sorting.

(** ** The global party order (main, lines 274-280) *)

(** One iteration of the loop over the sorted accumulation: the list
    [ordered_party_names] and the set [seen]. *)
Definition gpo_step (st : list pystr * gset pystr) (p : Z * pystr)
    : list pystr * gset pystr :=
  let '(ordered_party_names, seen) := st in
  let '(_, party_name) := p in
  if decide (party_name ∈ seen) then (ordered_party_names, seen)
  else (ordered_party_names ++ [party_name], {[party_name]} ∪ seen).

Definition ordered_party_names (all_ordered_parties : list (Z * pystr))
    : list pystr :=
  (foldl gpo_step ([], ∅) (sort_by fst all_ordered_parties)).1.

(** The accumulation over the districts, in the order they were visited
    ([all_ordered_parties.extend(ordered_parties)]). *)
Definition accumulate (districts : list (list (Z * pystr)))
    : list (Z * pystr) :=
  foldl (λ acc ordered_parties, acc ++ ordered_parties) [] districts.

(** The specification's wording: walk a list in order and keep the first
    occurrence of each distinct name. *)
Fixpoint first_occurrences (l : list pystr) : list pystr :=
  match l with
  | [] => []
  | x :: l' => x :: filter (λ y, y ≠ x) (first_occurrences l')
  end.

(** [a] comes before [b] in [l]. *)
Definition precedes (a b : pystr) (l : list pystr) : Prop :=
  ∃ l1 l2 l3, l = l1 ++ a :: l2 ++ b :: l3.

(** The first occurrence of [a] in [l] is before every occurrence of
    [b]. *)
Definition first_seen_before (a b : pystr) (l : list pystr) : Prop :=
  ∃ l1 l2, l = l1 ++ a :: l2 ∧ (a ∉ l1) ∧ (b ∉ l1) ∧ (b ∈ l2).

(** No code occurs under two different names. *)
Definition code_determines_name (l : list (Z * pystr)) : Prop :=
  ∀ c n1 n2, (c, n1) ∈ l → (c, n2) ∈ l → n1 = n2.

(** ** The parsed document

    A tag carries the attributes the program reads. The parser splits the
    values of [class] (any tag) and [headers] (table cells) at whitespace
    into a list of tokens; [href] stays one string. The document itself
    is a tag, and every query looks at the nodes below the one it is
    called on. *)

Record attributes := Attrs {
  attr_class : option (list pystr);
  attr_headers : option (list pystr);
  attr_href : option pystr
}.

Inductive node :=
| NavigableString (s : pystr)
| Tag (name : pystr) (attrs : attributes) (contents : list node).

Definition no_attrs : attributes := Attrs None None None.

Definition node_attrs (n : node) : attributes :=
  match n with
  | NavigableString _ => no_attrs
  | Tag _ a _ => a
  end.

(** All nodes below [n], in document order. *)
Fixpoint descendants (n : node) : list node :=
  match n with
  | NavigableString _ => []
  | Tag _ _ cs => flat_map (λ c, c :: descendants c) cs
  end.

(** [n.text]: the strings below [n], concatenated. *)
Fixpoint text (n : node) : pystr :=
  match n with
  | NavigableString s => s
  | Tag _ _ cs => flat_map text cs
  end.

Definition is_tag (name : pystr) (n : node) : bool :=
  match n with
  | NavigableString _ => false
  | Tag nm _ _ => bool_decide (nm = name)
  end.

(** [' '.join(tokens)] *)
Fixpoint join_tokens (tokens : list pystr) : pystr :=
  match tokens with
  | [] => []
  | [t] => t
  | t :: ts => t ++ 32%N :: join_tokens ts
  end.

(** The library's match of a multi-valued attribute against one wanted
    string: some token is the wanted string, or the whole value is. An
    absent attribute matches only an empty wanted string. *)
Definition matches_value (value : option (list pystr)) (wanted : pystr)
    : bool :=
  match value with
  | None => bool_decide (wanted = [])
  | Some tokens =>
      bool_decide (wanted ∈ tokens)
      || bool_decide (join_tokens tokens = wanted)
  end.

(** Against a list of wanted strings: one of them matches. *)
Definition matches_any (value : option (list pystr)) (wanted : list pystr)
    : bool :=
  existsb (matches_value value) wanted.

(** [n.find_all(name, attrs)] and [n.find(name, attrs)], with the attribute
    filter as a predicate. *)
Definition find_all (name : pystr) (p : attributes → bool) (n : node)
    : list node :=
  filter (λ d, is_tag name d && p (node_attrs d)) (descendants n).

Definition find (name : pystr) (p : attributes → bool) (n : node)
    : option node :=
  head (find_all name p n).

Definition any_attrs (a : attributes) : bool := true.

(** ** Literals of the program *)

Definition BASE_URL : pystr :=
  Eval cbv in str "https://www.volby.cz/pls/ps2017nss/ps3?xjazyk=CZ".
Definition SITE : pystr :=
  Eval cbv in str "https://www.volby.cz/pls/ps2017nss/".
Definition volby_cz : pystr := Eval cbv in str "volby.cz".
Definition http : pystr := Eval cbv in str "http".
Definition dot_csv : pystr := Eval cbv in str ".csv".

Definition td : pystr := Eval cbv in str "td".
Definition tr : pystr := Eval cbv in str "tr".
Definition a_tag : pystr := Eval cbv in str "a".
Definition table : pystr := Eval cbv in str "table".

Definition cislo : pystr := Eval cbv in str "cislo".
Definition overflow_name : pystr := Eval cbv in str "overflow_name".
Definition sa2 : pystr := Eval cbv in str "sa2".
Definition sa3 : pystr := Eval cbv in str "sa3".
Definition sa6 : pystr := Eval cbv in str "sa6".
Definition t1sa1_t1sb1 : pystr := Eval cbv in str "t1sa1 t1sb1".
Definition t2sa1_t2sb1 : pystr := Eval cbv in str "t2sa1 t2sb1".

Definition k_code : pystr := Eval cbv in str "code".
Definition k_location : pystr := Eval cbv in str "location".
Definition k_registered : pystr := Eval cbv in str "registered".
Definition k_envelopes : pystr := Eval cbv in str "envelopes".
Definition k_valid : pystr := Eval cbv in str "valid".
Definition NA : pystr := Eval cbv in str "N/A".
Definition zero : pystr := Eval cbv in str "0".

Definition fixed_columns : list pystr :=
  [k_code; k_location; k_registered; k_envelopes; k_valid].

(** ** What is outside the program

    The string methods whose tables are Unicode's, and the network. *)

Class Python := {
  (** [s.lower()] *)
  str_lower : pystr → pystr;
  (** [s.isdigit()] *)
  str_isdigit : pystr → bool;
  (** [int(s)]; [None] is [ValueError] *)
  py_int : pystr → option Z
}.

(** A request that raises (no connection) is not modelled: the program
    does not catch it in [fetch_page], and [validate_url] turns it into
    the same exit as a bad status. *)
Class Web := {
  (** [requests.get(url)] parsed; [None] is a status other than 200 *)
  http_get : pystr → option node;
  (** [requests.head(url)]: status 200 and no exception *)
  http_head : pystr → bool
}.

(** What becomes of writing the file (lines 212-222). Every exception
    raised between [open] and the end of the [with] block is caught and
    turned into an exit: either [open] raises and the file is left as it
    was, or the exception comes after the file was opened, and so emptied,
    and a number of lines written. *)
Inductive write_failure :=
| OpenFails
| FailsAfter (lines : nat).

Class Disk := {
  (** the exception, if any, that writing these lines to the file of this
      name runs into *)
  disk_failure : pystr → list (list pystr) → option write_failure
}.

(** ** Effects *)

(** The places where the program calls [sys.exit(1)], named as the error
    taxonomy does. *)
Inductive exit_reason :=
| UsageError      (* validate_arguments *)
| Unreachable     (* validate_url *)
| FetchError      (* fetch_page *)
| InvalidInput    (* get_url_from_name: numeric name *)
| NotFound        (* get_url_from_name: no row matched *)
| EmptyResult     (* main: nothing to export *)
| WriteError.     (* write_to_csv: an exception while writing the file *)

(** Exceptions the program does not catch. *)
Inductive exception := IndexError | TypeError | KeyError | AttributeError.

Inductive result (A : Type) :=
| Ok (a : A)
| Exit (r : exit_reason)
| Raise (e : exception).
Arguments Ok {A} a.
Arguments Exit {A} r.
Arguments Raise {A} e.

Inductive event :=
| Get (url : pystr)
| Head (url : pystr)
| WriteCsv (csv_file : pystr) (header : list pystr) (rows : list (list pystr))
| WriteFailed (csv_file : pystr) (lines : list (list pystr)).

(** A computation extends the trace of events and ends in a result. *)
Definition M (A : Type) : Type := list event → list event * result A.

Definition result_bind {A B} (f : A → result B) (r : result A) : result B :=
  match r with
  | Ok a => f a
  | Exit e => Exit e
  | Raise e => Raise e
  end.

Definition M_bind_def {A B} (f : A → M B) (m : M A) : M B :=
  λ t, match m t with
       | (t', Ok a) => f a t'
       | (t', Exit e) => (t', Exit e)
       | (t', Raise e) => (t', Raise e)
       end.

#[global] Instance result_ret : MRet result := λ A a, Ok a.
#[global] Instance result_mbind : MBind result := λ A B f r, result_bind f r.
#[global] Instance M_ret : MRet M := λ A a t, (t, Ok a).
#[global] Instance M_mbind : MBind M := λ A B f m, M_bind_def f m.

(** The events that change a file: [WriteCsv] leaves the whole table in
    it, [WriteFailed] the first lines of the table, after which the write
    was given up. *)
Definition touches_disk (e : event) : bool :=
  match e with
  | WriteCsv _ _ _ | WriteFailed _ _ => true
  | Get _ | Head _ => false
  end.

(** The trace holds no written file, whole or in part. *)
Definition nothing_written (t : list event) : Prop :=
  ∀ e, e ∈ t → touches_disk e = false.

Definition lift {A} (r : result A) : M A := λ t, (t, r).
Definition sys_exit {A} (r : exit_reason) : M A := lift (Exit r).
Definition emit (e : event) : M unit := λ t, (t ++ [e], Ok tt).

(** [l[i]] *)
Definition index {A} (l : list A) (i : nat) : result A :=
  match l !! i with
  | Some x => Ok x
  | None => Raise IndexError
  end.

(** ** The program *)

Section program.
Context `{Python} `{Web} `{Disk}.

(** *** validate_arguments (lines 18-50) *)

Definition endswith (suffix s : pystr) : bool :=
  is_prefix (reverse suffix) (reverse s).

Definition validate_arguments (args : list pystr) : M (pystr * pystr) :=
  if bool_decide (length args ≠ 3%nat) then sys_exit UsageError
  else
    input_value ← lift (index args 1);
    csv_file ← lift (index args 2);
    if bool_decide (input_value = []) then sys_exit UsageError
    else if contains volby_cz input_value
            && negb (is_prefix http input_value)
    then sys_exit UsageError
    else if negb (endswith dot_csv (str_lower csv_file))
    then sys_exit UsageError
    else mret (input_value, csv_file).

(** *** validate_url (lines 53-70) *)

Definition validate_url (url : pystr) : M unit :=
  emit (Head url);;
  if http_head url then mret tt else sys_exit Unreachable.

(** *** fetch_page (lines 73-90) *)

Definition fetch_page (url : pystr) : M node :=
  emit (Get url);;
  match http_get url with
  | Some soup => mret soup
  | None => sys_exit FetchError
  end.

(** *** get_url_from_name (lines 93-124) *)

Definition class_is (wanted : pystr) (a : attributes) : bool :=
  matches_value (attr_class a) wanted.

Definition headers_is (wanted : pystr) (a : attributes) : bool :=
  matches_value (attr_headers a) wanted.

(** [cell.find('a')['href']] *)
Definition anchor_href (cell : node) : result pystr :=
  match find a_tag any_attrs cell with
  | None => Raise TypeError
  | Some a =>
      match attr_href (node_attrs a) with
      | None => Raise KeyError
      | Some url => Ok url
      end
  end.

(** The body of the inner loop (lines 116-121) for one row: [Some r] when
    it leaves the function, [None] when the loop goes on. *)
Definition locate_in_row (district_name : pystr) (row : node)
    : option (result pystr) :=
  let cells := find_all td any_attrs row in
  if bool_decide (3 < length cells)%nat then
    match index cells 1 with
    | Ok cell1 =>
        let district_name_in_page := strip (text cell1) in
        if bool_decide (str_lower district_name_in_page
                        = str_lower district_name)
        then Some (cell3 ← index cells 3;
                   url ← anchor_href cell3;
                   mret (SITE ++ url))
        else None
    | Exit r => Some (Exit r)
    | Raise e => Some (Raise e)
    end
  else None.

Fixpoint locate_in_rows (district_name : pystr) (rows : list node)
    : option (result pystr) :=
  match rows with
  | [] => None
  | row :: rows' =>
      match locate_in_row district_name row with
      | Some r => Some r
      | None => locate_in_rows district_name rows'
      end
  end.

Fixpoint locate_in_tables (district_name : pystr) (tables : list node)
    : option (result pystr) :=
  match tables with
  | [] => None
  | tbl :: tables' =>
      let rows := drop 2 (find_all tr any_attrs tbl) in
      match locate_in_rows district_name rows with
      | Some r => Some r
      | None => locate_in_tables district_name tables'
      end
  end.

Definition get_url_from_name (district_name : pystr) : M pystr :=
  if str_isdigit district_name then sys_exit InvalidInput
  else
    soup ← fetch_page BASE_URL;
    let tables := find_all table (class_is table) soup in
    match locate_in_tables district_name tables with
    | Some r => lift r
    | None => sys_exit NotFound
    end.

(** *** extract_district_stats (lines 127-145) *)

(** [cell.text.strip().replace('\xa0', '') if cell else 'N/A'] *)
Definition stat_value (cell : option node) : pystr :=
  match cell with
  | Some c => remove_nbsp (strip (text c))
  | None => NA
  end.

Definition extract_district_stats (soup : node) : gmap pystr pystr :=
  let registered := find td (headers_is sa2) soup in
  let envelopes := find td (headers_is sa3) soup in
  let valid := find td (headers_is sa6) soup in
  <[k_valid := stat_value valid]>
    (<[k_envelopes := stat_value envelopes]>
       (<[k_registered := stat_value registered]> ∅)).

(** *** extract_party_data (lines 148-170)

    In the test of line 162 a tag counts as true whatever its contents,
    so [cislo_cell and party_name_cell] asks that both were found. Of the
    [try] block only [int] can raise [ValueError]. *)

Definition is_code_cell (a : attributes) : bool :=
  class_is cislo a
  && matches_any (attr_headers a) [t1sa1_t1sb1; t2sa1_t2sb1].

Definition extract_party_data (row : node) : option (Z * pystr * pystr) :=
  let cislo_cell := find td is_code_cell row in
  let party_name_cell := find td (class_is overflow_name) row in
  let vote_cells := find_all td (class_is cislo) row in
  match cislo_cell, party_name_cell with
  | Some cislo_cell, Some party_name_cell =>
      if bool_decide (1 < length vote_cells)%nat then
        match py_int (strip (text cislo_cell)) with
        | Some cislo_value =>
            let party_name := strip (text party_name_cell) in
            match vote_cells !! 1%nat with
            | Some vote_cell =>
                let votes_count := remove_nbsp (strip (text vote_cell)) in
                Some (cislo_value, party_name, votes_count)
            | None => None
            end
        | None => None
        end
      else None
  | _, _ => None
  end.

(** *** fetch_district_data (lines 173-198) *)

(** Lines 186-190: the rows that yield a triple, in document order. A
    triple is a non-empty tuple, so [if party_data] holds for each. *)
Definition party_rows (soup : node) : list (Z * pystr * pystr) :=
  foldl (λ party_list row,
           match extract_party_data row with
           | Some party_data => party_list ++ [party_data]
           | None => party_list
           end)
        [] (find_all tr any_attrs soup).

Definition party_code (p : Z * pystr * pystr) : Z := p.1.1.

(** Line 197: [(cislo, party_name) for cislo, party_name, _ in ...]. *)
Definition code_and_name (p : Z * pystr * pystr) : Z * pystr :=
  let '(cislo_value, party_name, _) := p in (cislo_value, party_name).

(** Lines 194-195: [district_data[party_name] = votes_count]. *)
Definition fold_parties (district_data : gmap pystr pystr)
    (party_list : list (Z * pystr * pystr)) : gmap pystr pystr :=
  foldl (λ d p, let '(_, party_name, votes_count) := p in
                <[party_name := votes_count]> d)
        district_data party_list.

(** Lines 184-198 on a page already fetched. *)
Definition district_of_page (soup : node)
    : gmap pystr pystr * list (Z * pystr) :=
  let district_data := extract_district_stats soup in
  let party_list := sort_by party_code (party_rows soup) in
  let district_data := fold_parties district_data party_list in
  let ordered_parties := code_and_name <$> party_list in
  (district_data, ordered_parties).

Definition fetch_district_data (url : pystr)
    : M (gmap pystr pystr * list (Z * pystr)) :=
  soup ← fetch_page url;
  mret (district_of_page soup).

(** *** write_to_csv (lines 201-222)

    The file is recorded as an event: its name, the header and the
    rows. Quoting and encoding are the CSV writer's. The writer emits, for
    each field name, the row dictionary's value, so a repeated column name
    repeats the cell.

    Lines 212-222 wrap the write in [try ... except Exception]: an
    exception of [open] leaves the file alone, one raised later leaves the
    lines written so far, header first ([WriteFailed]); both end in
    [sys.exit(1)]. *)

Definition csv_row (csv_columns : list pystr) (entry : gmap pystr pystr)
    : list pystr :=
  (λ col, default zero (entry !! col)) <$> csv_columns.

Definition write_to_csv (csv_file : pystr)
    (all_district_data : list (gmap pystr pystr))
    (ordered_party_names : list pystr) : M unit :=
  let csv_columns := fixed_columns ++ ordered_party_names in
  let rows := csv_row csv_columns <$> all_district_data in
  match disk_failure csv_file (csv_columns :: rows) with
  | None => emit (WriteCsv csv_file csv_columns rows)
  | Some OpenFails => sys_exit WriteError
  | Some (FailsAfter n) =>
      emit (WriteFailed csv_file (take n (csv_columns :: rows)));;
      sys_exit WriteError
  end.

(** *** process_district_row (lines 225-239) *)

Definition process_district_row (row : node)
    : result (pystr * pystr * pystr) :=
  let cells := find_all td any_attrs row in
  cell0 ← index cells 0;
  match find a_tag any_attrs cell0 with
  | None => Raise AttributeError
  | Some a =>
      let cislo_value := strip (text a) in
      cell1 ← index cells 1;
      let district_name := strip (text cell1) in
      match attr_href (node_attrs a) with
      | None => Raise KeyError
      | Some href =>
          let second_level_url := SITE ++ href in
          mret (cislo_value, district_name, second_level_url)
      end
  end.

(** *** main (lines 242-283) *)

(** Line 262: [len(cells) > 1 and cells[0].get('class') == ['cislo']]. *)
Definition is_data_row (row : node) : bool :=
  let cells := find_all td any_attrs row in
  bool_decide (1 < length cells)%nat
  && match cells !! 0%nat with
     | Some cell0 => bool_decide (attr_class (node_attrs cell0) = Some [cislo])
     | None => false
     end.

(** Lines 260-268, with the two accumulating lists as the loop state. *)
Fixpoint main_loop (rows : list node)
    (all_district_data : list (gmap pystr pystr))
    (all_ordered_parties : list (Z * pystr))
    : M (list (gmap pystr pystr) * list (Z * pystr)) :=
  match rows with
  | [] => mret (all_district_data, all_ordered_parties)
  | row :: rows' =>
      if is_data_row row then
        '(cislo_value, district_name, second_level_url) ←
           lift (process_district_row row);
        '(district_data, ordered_parties) ←
           fetch_district_data second_level_url;
        let district_data := <[k_code := cislo_value]> district_data in
        let district_data :=
          <[k_location := district_name]> district_data in
        main_loop rows' (all_district_data ++ [district_data])
                  (all_ordered_parties ++ ordered_parties)
      else main_loop rows' all_district_data all_ordered_parties
  end.

(** Lines 248-252: the URL of the district page. *)
Definition district_url (input_value : pystr) : M pystr :=
  if contains volby_cz input_value
  then validate_url input_value;; mret input_value
  else get_url_from_name input_value.

Definition main (args : list pystr) : M unit :=
  '(input_value, csv_file) ← validate_arguments args;
  url ← district_url input_value;
  soup ← fetch_page url;
  let rows := find_all tr any_attrs soup in
  '(all_district_data, all_ordered_parties) ← main_loop rows [] [];
  if bool_decide (all_district_data = []) then sys_exit EmptyResult
  else
    write_to_csv csv_file all_district_data
                 (ordered_party_names all_ordered_parties).
End program.

(** ** The traversal as the specification words it

    Section 4.5, steps 2 to 4: for each selected row run the row extractor,
    fetch the page behind its link, assemble the record and accumulate the
    (code, name) pairs. *)

Section traversal.
Context `{Python} `{Web} `{Disk}.

Fixpoint traverse (selected : list node)
    (all_district_data : list (gmap pystr pystr))
    (all_ordered_parties : list (Z * pystr))
    : M (list (gmap pystr pystr) * list (Z * pystr)) :=
  match selected with
  | [] => mret (all_district_data, all_ordered_parties)
  | row :: rest =>
      '(code, name, url) ← lift (process_district_row row);
      soup ← fetch_page url;
      let page := district_of_page soup in
      traverse rest
        (all_district_data
           ++ [<[k_location := name]> (<[k_code := code]> page.1)])
        (all_ordered_parties ++ page.2)
  end.

(** One district of a finished traversal: the row, what the row extractor
    returned for it, and the page fetched. *)
Record visit := Visit {
  v_row : node;
  v_code : pystr;
  v_name : pystr;
  v_url : pystr;
  v_page : node
}.

Definition visit_ok (v : visit) : Prop :=
  process_district_row (v_row v) = Ok (v_code v, v_name v, v_url v)
  ∧ http_get (v_url v) = Some (v_page v).

Definition visit_record (v : visit) : gmap pystr pystr :=
  <[k_location := v_name v]>
    (<[k_code := v_code v]> (district_of_page (v_page v)).1).

Definition visit_pairs (v : visit) : list (Z * pystr) :=
  (district_of_page (v_page v)).2.

(** The class attribute of the first cell of the row is exactly the marker
    class: the list of its classes is [['cislo']], the second test of
    line 262. *)
Definition first_cell_marked (row : node) : bool :=
  match find_all td any_attrs row !! 0%nat with
  | Some cell0 => bool_decide (attr_class (node_attrs cell0) = Some [cislo])
  | None => false
  end.

(** The first cell of the row carries the marker class, alone or among
    other classes, as a search by class finds it. *)
Definition first_cell_has_marker (row : node) : bool :=
  match find_all td any_attrs row !! 0%nat with
  | Some cell0 => class_is cislo (node_attrs cell0)
  | None => false
  end.

(** The votes a party list leaves under a key: those of the last party
    of that name. *)
Definition party_votes (party_list : list (Z * pystr * pystr))
    (key : pystr) : option pystr :=
  last (omap (λ p, let '(_, party_name, votes_count) := p in
                   if decide (party_name = key) then Some votes_count
                   else None) party_list).

(** The triples of a page, in the order [fetch_district_data] folds
    them. *)
Definition sorted_parties (soup : node) : list (Z * pystr * pystr) :=
  sort_by party_code (party_rows soup).

(** The index scan as the specification words it: the candidate rows are
    the rows of each index table after its first two. *)
Definition index_rows (soup : node) : list node :=
  tbl ← find_all table (class_is table) soup;
  drop 2 (find_all tr any_attrs tbl).

(** A candidate row matches when it has a second and a fourth cell and
    the trimmed text of the second is the name, case ignored. *)
Definition row_matches (district_name : pystr) (row : node) : bool :=
  let cells := find_all td any_attrs row in
  bool_decide (3 < length cells)%nat
  && match cells !! 1%nat with
     | Some cell1 =>
         bool_decide (str_lower (strip (text cell1))
                      = str_lower district_name)
     | None => false
     end.

(** The absolute URL built from the anchor found in the fourth cell. *)
Definition url_of_row (row : node) : result pystr :=
  cell4 ← index (find_all td any_attrs row) 3;
  href ← anchor_href cell4;
  mret (SITE ++ href).

(** The district locator as the specification words it, on the index
    page: the first candidate row that matches decides. *)
Definition locate (district_name : pystr) (soup : node) : result pystr :=
  match head (filter (row_matches district_name) (index_rows soup)) with
  | Some row => url_of_row row
  | None => Exit NotFound
  end.
End traversal.

(** ** A concrete environment

    ASCII versions of the string methods, and a small site: an index page
    with one district, its list of municipalities and their results
    pages. They instantiate the statements below. *)

Definition ascii_lower (s : pystr) : pystr :=
  map (λ c, if (65 <=? c) && (c <=? 90) then c + 32 else c)%N s.

Definition ascii_digit (c : N) : bool := ((48 <=? c) && (c <=? 57))%N.

Definition ascii_isdigit (s : pystr) : bool :=
  negb (bool_decide (s = [])) && forallb ascii_digit s.

Definition ascii_int (s : pystr) : option Z :=
  if ascii_isdigit s
  then Some (foldl (λ acc c, 10 * acc + (Z.of_N c - 48)) 0 s)
  else None.

Definition ascii_python : Python :=
  {| str_lower := ascii_lower;
     str_isdigit := ascii_isdigit;
     py_int := ascii_int |}.

Module Site.
Definition elem (name : string) (contents : list node) : node :=
  Tag (str name) no_attrs contents.

Definition txt (s : string) : node := NavigableString (str s).

Definition cell (class headers : list string) (contents : list node)
    : node :=
  Tag td (Attrs (if class is [] then None else Some (str <$> class))
                (if headers is [] then None else Some (str <$> headers))
                None)
      contents.

Definition link (href : string) (label : string) : node :=
  Tag a_tag (Attrs None None (Some (str href))) [txt label].

Definition row (cells : list node) : node := elem "tr" cells.

Definition document (contents : list node) : node :=
  elem "[document]" contents.

(** The index of districts. *)
Definition index_page : node :=
  document
    [Tag table (Attrs (Some [table]) None None)
       [row [elem "th" [txt "Kraj"]];
        row [elem "th" [txt "Okres"]];
        row [cell [] [] [txt "CZ0100"];
             cell [] [] [txt " Praha "];
             cell [] [] [txt "X"];
             cell [] [] [link "ps32?xnumnuts=1100" "X"]];
        row [cell [] [] [txt "CZ0201"];
             cell [] [] [txt "Benesov"];
             cell [] [] [txt "X"]]]].

Definition party_row (variant : list string) (code name votes : string)
    : node :=
  row [cell ["cislo"] variant [txt code];
       cell ["overflow_name"] [] [txt name];
       cell ["cislo"] [] [txt votes]].

Definition stat_cell (header : string) (value : pystr) : node :=
  cell ["cislo"] [header] [NavigableString value].

(** Results of the first municipality: both parties. *)
Definition results_1 : node :=
  document
    [row [stat_cell "sa2" (str "1" ++ [nbsp] ++ str "000");
          stat_cell "sa3" (str "900");
          stat_cell "sa6" (str "850")];
     row [elem "th" [txt "Strana"]];
     party_row ["t1sa1"; "t1sb1"] "2" "Party B" "100";
     party_row ["t2sa1"; "t2sb1"] "1" "Party A" "200"].

(** Results of the second municipality: one party, no statistics. *)
Definition results_2 : node :=
  document [party_row ["t1sa1"; "t1sb1"] "2" "Party B" "7"].

(** The list of municipalities of the district. *)
Definition district_page : node :=
  document
    [row [elem "th" [txt "Obec"]];
     row [cell ["cislo"] [] [link "ps311?obec=1" "500011"];
          cell [] [] [txt "Praha 1"]];
     row [cell ["hidden_td"] [] [txt "-"]; cell [] [] [txt "-"]];
     row [cell ["cislo"] [] [link "ps311?obec=2" " 500022 "];
          cell [] [] [txt " Praha 2"]]].

(** A row whose only cell has the marker class. *)
Definition lone_cell_row : node :=
  row [cell ["cislo"] [] [link "ps311?obec=1" "500011"]].

(** A row of two cells whose first cell has the marker class and one
    more. *)
Definition two_class_row : node :=
  row [cell ["cislo"; "x"] [] [link "ps311?obec=1" "500011"];
       cell [] [] [txt "Praha 1"]].

(** Results without statistics, with a party named as a fixed column. *)
Definition results_3 : node :=
  document [party_row ["t1sa1"; "t1sb1"] "1" "registered" "0"].

Definition district_page_3 : node :=
  document
    [row [cell ["cislo"] [] [link "ps311?obec=3" "500033"];
          cell [] [] [txt "Praha 3"]]].

(** Two municipalities that list the same code under different names, and
    two district pages that list the municipalities in opposite orders. *)
Definition results_a : node :=
  document [party_row ["t1sa1"; "t1sb1"] "1" "A" "10"].

Definition results_b : node :=
  document [party_row ["t1sa1"; "t1sb1"] "1" "B" "20"].

Definition municipality_row (href code name : string) : node :=
  row [cell ["cislo"] [] [link href code]; cell [] [] [txt name]].

Definition district_page_ab : node :=
  document [municipality_row "ps311?obec=a" "1" "Obec A";
            municipality_row "ps311?obec=b" "2" "Obec B"].

Definition district_page_ba : node :=
  document [municipality_row "ps311?obec=b" "2" "Obec B";
            municipality_row "ps311?obec=a" "1" "Obec A"].

(** A list of municipalities without data rows. *)
Definition empty_district_page : node :=
  document [row [elem "th" [txt "Obec"]]].

Definition pages : list (pystr * node) :=
  [(BASE_URL, index_page);
   (SITE ++ str "ps32?xnumnuts=1100", district_page);
   (SITE ++ str "ps311?obec=1", results_1);
   (SITE ++ str "ps311?obec=2", results_2);
   (SITE ++ str "ps311?obec=3", results_3);
   (str "https://www.volby.cz/three", district_page_3);
   (SITE ++ str "ps311?obec=a", results_a);
   (SITE ++ str "ps311?obec=b", results_b);
   (str "https://www.volby.cz/ab", district_page_ab);
   (str "https://www.volby.cz/ba", district_page_ba);
   (str "https://www.volby.cz/empty", empty_district_page)].

Fixpoint lookup_page (url : pystr) (l : list (pystr * node))
    : option node :=
  match l with
  | [] => None
  | (u, page) :: l' =>
      if bool_decide (u = url) then Some page else lookup_page url l'
  end.

Definition web : Web :=
  {| http_get url := lookup_page url pages;
     http_head url := bool_decide (is_Some (lookup_page url pages)) |}.

(** A disk on which every write goes through. *)
Definition disk : Disk := {| disk_failure _ _ := None |}.

Definition run (args : list string) : list event * result unit :=
  @main ascii_python web disk (str <$> args) [].
End Site.

(** ** Reading a run

    What a trace shows of the network, and the argument lists
    [validate_arguments] lets through. *)

(** The URLs of the GET requests, in order. *)
Definition requested (t : list event) : list pystr :=
  omap (λ e, match e with Get url => Some url | _ => None end) t.

(** The URLs of the HEAD requests, in order. *)
Definition probed (t : list event) : list pystr :=
  omap (λ e, match e with Head url => Some url | _ => None end) t.

(** A URL under the results site. *)
Definition under_site (url : pystr) : Prop := ∃ href, url = SITE ++ href.

(** Three arguments, of which the second is not empty and, if it mentions
    the site, starts with [http], and the third ends in [.csv] once
    lowered. *)
Definition accepted_arguments `{Python} (args : list pystr)
    (input_value csv_file : pystr) : Prop :=
  (∃ program, args = [program; input_value; csv_file])
  ∧ input_value ≠ []
  ∧ ((∃ l1 l2, input_value = l1 ++ volby_cz ++ l2)
     → ∃ rest, input_value = http ++ rest)
  ∧ ∃ stem, str_lower csv_file = stem ++ dot_csv.

(** Lines 270-283 of [main]: what follows the traversal. *)
Definition finish `{Disk} (csv_file : pystr)
    (loop : list event
            * result (list (gmap pystr pystr) * list (Z * pystr)))
    : list event * result unit :=
  match loop with
  | (t, Ok (all_district_data, all_ordered_parties)) =>
      if bool_decide (all_district_data = []) then (t, Exit EmptyResult)
      else
        let csv_columns :=
          fixed_columns ++ ordered_party_names all_ordered_parties in
        let rows := csv_row csv_columns <$> all_district_data in
        match disk_failure csv_file (csv_columns :: rows) with
        | None => (t ++ [WriteCsv csv_file csv_columns rows], Ok tt)
        | Some OpenFails => (t, Exit WriteError)
        | Some (FailsAfter n) =>
            (t ++ [WriteFailed csv_file (take n (csv_columns :: rows))],
             Exit WriteError)
        end
  | (t, Exit r) => (t, Exit r)
  | (t, Raise e) => (t, Raise e)
  end.

(** The text as [extract_district_stats] and [extract_party_data] clean
    it. *)
Definition clean (s : pystr) : pystr := remove_nbsp (strip s).

(** A district page whose second municipality links to a missing page and
    whose fourth has no anchor, on the site of [Site]. *)
Module Broken.
Definition district_page : node :=
  Site.document
    [Site.municipality_row "ps311?obec=1" "500011" "Praha 1";
     Site.municipality_row "ps311?obec=9" "500099" "Praha 9";
     Site.municipality_row "ps311?obec=2" "500022" "Praha 2"].

Definition no_anchor_row : node :=
  Site.row [Site.cell ["cislo"] [] [Site.txt "500044"];
            Site.cell [] [] [Site.txt "Praha 4"]].

Definition district_page_no_anchor : node :=
  Site.document
    [Site.municipality_row "ps311?obec=1" "500011" "Praha 1";
     no_anchor_row;
     Site.municipality_row "ps311?obec=2" "500022" "Praha 2"].

Definition pages : list (pystr * node) :=
  (str "https://www.volby.cz/broken", district_page)
  :: (str "https://www.volby.cz/noanchor", district_page_no_anchor)
  :: Site.pages.

Definition web : Web :=
  {| http_get url := Site.lookup_page url pages;
     http_head url :=
       bool_decide (is_Some (Site.lookup_page url pages))
       && negb (bool_decide (url = str "https://www.volby.cz/down")) |}.

(** A disk with a directory that does not exist and a file that takes
    two lines only. *)
Definition disk : Disk :=
  {| disk_failure csv_file _ :=
       if bool_decide (csv_file = str "nodir/out.csv") then Some OpenFails
       else if bool_decide (csv_file = str "full.csv")
       then Some (FailsAfter 2)
       else None |}.

Definition run (args : list string) : list event * result unit :=
  @main ascii_python web disk (str <$> args) [].
End Broken.

(** * Properties *)

(** ** Strings *)

Lemma isspace_nbsp : isspace nbsp = true.
Proof. reflexivity. Qed.

(** ** Sorting *)

Section sorting_facts.
Context {A : Type} (key : A → Z).
Implicit Types (x : A) (l : list A).

Lemma insert_by_perm x l : insert_by key x l ≡ₚ x :: l.
Proof.
  induction l as [|y l IH]; simpl; [done|].
  case_bool_decide; [done|].
  rewrite IH. apply Permutation_swap.
Qed.

Lemma sort_by_perm l : sort_by key l ≡ₚ l.
Proof.
  induction l as [|x l IH]; simpl; [done|].
  by rewrite insert_by_perm, IH.
Qed.

Lemma insert_by_sorted x l :
  StronglySorted (key_le key) l →
  StronglySorted (key_le key) (insert_by key x l).
Proof.
  induction 1 as [|y l Hs IH Hall]; simpl.
  - repeat constructor.
  - case_bool_decide as Hxy.
    + constructor; [by constructor|].
      constructor; [done|].
      eapply Forall_impl; [exact Hall|].
      unfold key_le. intros z Hz. lia.
    + constructor; [done|].
      rewrite insert_by_perm. constructor; [|done].
      unfold key_le. lia.
Qed.

Lemma sort_by_sorted l : StronglySorted (key_le key) (sort_by key l).
Proof.
  induction l as [|x l IH]; simpl; [constructor|].
  by apply insert_by_sorted.
Qed.

(** Stability: elements with the same key keep their relative order. *)
Lemma insert_by_stable x l k :
  Forall (λ y, key y = k → key x ≤ key y) l →
  filter (λ y, key y = k) (insert_by key x l)
  = filter (λ y, key y = k) (x :: l).
Proof.
  induction 1 as [|y l Hy Hall IH]; simpl; [done|].
  case_bool_decide as Hxy; [done|].
  rewrite !filter_cons. rewrite filter_cons in IH.
  destruct (decide (key y = k)) as [Hk|Hk].
  - specialize (Hy Hk). lia.
  - by rewrite IH.
Qed.

Lemma sort_by_stable l k :
  filter (λ y, key y = k) (sort_by key l) = filter (λ y, key y = k) l.
Proof.
  induction l as [|x l IH]; simpl; [done|].
  destruct (decide (key x = k)) as [Hk|Hk].
  - rewrite insert_by_stable.
    + rewrite !filter_cons. by rewrite IH.
    + pose proof (sort_by_sorted l) as Hs.
      apply Forall_forall. intros y _ Hy. lia.
  - assert (Hgen : ∀ s, filter (λ y, key y = k) (insert_by key x s)
                       = filter (λ y, key y = k) s).
    { induction s as [|y s IHs]; simpl.
      - by rewrite filter_cons_False.
      - case_bool_decide.
        + by rewrite (filter_cons_False _ x).
        + rewrite !filter_cons. by rewrite IHs. }
    rewrite Hgen, IH. by rewrite filter_cons_False.
Qed.

(** A sorted list with the same elements of each key, in the same order,
    is the result of [sort_by]: a stable sort has one result, whatever
    the algorithm. *)
Lemma stable_sort_unique s l :
  StronglySorted (key_le key) s
  → (∀ k, filter (λ y, key y = k) s = filter (λ y, key y = k) l)
  → s = sort_by key l.
Proof.
  intros Hs Hfilter.
  assert (Hgen : ∀ s1 s2,
             StronglySorted (key_le key) s1 → StronglySorted (key_le key) s2
             → (∀ k, filter (λ y, key y = k) s1 = filter (λ y, key y = k) s2)
             → s1 = s2).
  { clear. induction s1 as [|x s1 IH]; intros s2 H1 H2 Hf.
    - destruct s2 as [|y s2]; [done|].
      specialize (Hf (key y)). by rewrite filter_cons_True in Hf.
    - destruct s2 as [|y s2].
      { specialize (Hf (key x)). by rewrite filter_cons_True in Hf. }
      apply StronglySorted_cons in H1 as [Hx H1].
      apply StronglySorted_cons in H2 as [Hy H2].
      assert (Hxy : key x = key y).
      { assert (x ∈ y :: s2) as Hin.
        { apply (list_elem_of_filter (λ z, key z = key x)).
          rewrite <- Hf, filter_cons_True by done. left. }
        assert (y ∈ x :: s1) as Hin'.
        { apply (list_elem_of_filter (λ z, key z = key y)).
          rewrite Hf, filter_cons_True by done. left. }
        apply elem_of_cons in Hin as [->|Hin]; [done|].
        apply elem_of_cons in Hin' as [->|Hin']; [done|].
        rewrite Forall_forall in Hx, Hy.
        specialize (Hx _ Hin'). specialize (Hy _ Hin).
        unfold key_le in *. simpl in *. lia. }
      pose proof (Hf (key x)) as Hk.
      rewrite !filter_cons_True in Hk by done.
      injection Hk as <- Hk. f_equal. apply IH; [done..|].
      intros k. destruct (decide (key x = k)) as [<-|Hne]; [done|].
      specialize (Hf k). by rewrite !filter_cons_False in Hf. }
  apply Hgen; [done|apply sort_by_sorted|].
  intros k. by rewrite sort_by_stable.
Qed.
End sorting_facts.

(** ** The global party order *)

Lemma accumulate_concat (districts : list (list (Z * pystr))) :
  accumulate districts = mjoin districts.
Proof.
  unfold accumulate.
  assert (Hgen : ∀ acc, foldl (λ acc ordered_parties, acc ++ ordered_parties)
                          acc districts = acc ++ mjoin districts).
  { induction districts as [|d ds IH]; intros acc; simpl.
    - by rewrite app_nil_r.
    - rewrite IH. by rewrite <- app_assoc. }
  by rewrite Hgen.
Qed.

Lemma elem_of_first_occurrences (l : list pystr) (n : pystr) :
  n ∈ first_occurrences l ↔ n ∈ l.
Proof.
  induction l as [|x l IH]; simpl; [done|].
  rewrite !elem_of_cons, list_elem_of_filter, IH.
  destruct (decide (n = x)); naive_solver.
Qed.

Lemma NoDup_first_occurrences (l : list pystr) :
  NoDup (first_occurrences l).
Proof.
  induction l as [|x l IH]; simpl; [constructor|].
  constructor.
  - rewrite list_elem_of_filter. naive_solver.
  - by apply NoDup_filter.
Qed.

Lemma filter_all {A} (P : A → Prop) `{!∀ x, Decision (P x)} (l : list A) :
  (∀ x, P x) → filter P l = l.
Proof.
  intros HP. induction l as [|x l IH]; [done|].
  by rewrite filter_cons_True, IH.
Qed.

Lemma first_occurrences_app (l1 l2 : list pystr) :
  first_occurrences (l1 ++ l2)
  = first_occurrences l1 ++ filter (λ y, y ∉ l1) (first_occurrences l2).
Proof.
  induction l1 as [|x l1 IH]; simpl.
  - rewrite filter_all; [done|]. intros y. apply not_elem_of_nil.
  - f_equal. rewrite IH, filter_app. f_equal.
    rewrite list_filter_filter. apply list_filter_iff.
    intros y. rewrite not_elem_of_cons. naive_solver.
Qed.

(** The loop with [seen] keeps first occurrences. *)
Lemma foldl_gpo_step (l : list (Z * pystr)) (names : list pystr)
    (seen : gset pystr) :
  (foldl gpo_step (names, seen) l).1
  = names ++ filter (λ y, y ∉ seen) (first_occurrences (l.*2)).
Proof.
  revert names seen.
  induction l as [|[c n] l IH]; intros names seen; simpl.
  - by rewrite app_nil_r.
  - destruct (decide (n ∈ seen)) as [Hin|Hin].
    + rewrite IH. f_equal. rewrite filter_cons_False by naive_solver.
      rewrite list_filter_filter. apply list_filter_iff.
      intros y. split; [|naive_solver].
      intros Hy. split; [done|]. intros ->. done.
    + rewrite IH, <- app_assoc. simpl. f_equal.
      rewrite filter_cons_True by done. f_equal.
      rewrite list_filter_filter. apply list_filter_iff.
      intros y. set_solver.
Qed.

Lemma ordered_party_names_first_occurrences (acc : list (Z * pystr)) :
  ordered_party_names acc = first_occurrences ((sort_by fst acc).*2).
Proof.
  unfold ordered_party_names. rewrite foldl_gpo_step. simpl.
  rewrite filter_all; [done|]. intros y. set_solver.
Qed.

Lemma elem_of_ordered_party_names (acc : list (Z * pystr)) (n : pystr) :
  n ∈ ordered_party_names acc ↔ n ∈ acc.*2.
Proof.
  rewrite ordered_party_names_first_occurrences, elem_of_first_occurrences.
  by rewrite (sort_by_perm fst acc).
Qed.

Lemma NoDup_ordered_party_names (acc : list (Z * pystr)) :
  NoDup (ordered_party_names acc).
Proof.
  rewrite ordered_party_names_first_occurrences.
  apply NoDup_first_occurrences.
Qed.

Lemma length_ordered_party_names (acc : list (Z * pystr)) :
  length (ordered_party_names acc)
  = size (list_to_set (acc.*2) : gset pystr).
Proof.
  rewrite <- (size_list_to_set (C := gset pystr) (ordered_party_names acc))
    by apply NoDup_ordered_party_names.
  f_equal. apply set_eq. intros n.
  by rewrite !elem_of_list_to_set, elem_of_ordered_party_names.
Qed.

(** ** The effect monad *)

Section monad_facts.
Context {A B : Type}.

Lemma bind_M (m : M A) (f : A → M B) (t : list event) :
  (m ≫= f) t
  = match m t with
    | (t', Ok a) => f a t'
    | (t', Exit e) => (t', Exit e)
    | (t', Raise e) => (t', Raise e)
    end.
Proof. reflexivity. Qed.

Lemma bind_lift (r : result A) (f : A → M B) (t : list event) :
  (lift r ≫= f) t
  = match r with
    | Ok a => f a t
    | Exit e => (t, Exit e)
    | Raise e => (t, Raise e)
    end.
Proof. by destruct r. Qed.

Lemma bind_emit (e : event) (f : unit → M B) (t : list event) :
  (emit e ≫= f) t = f tt (t ++ [e]).
Proof. reflexivity. Qed.
End monad_facts.

Section program_facts.
Context `{Python} `{Web} `{Disk}.

Lemma fetch_page_eq (url : pystr) (t : list event) :
  fetch_page url t
  = (t ++ [Get url],
     match http_get url with
     | Some soup => Ok soup
     | None => Exit FetchError
     end).
Proof.
  unfold fetch_page. rewrite bind_emit. by destruct (http_get url).
Qed.

(** The loop of [main] visits the data rows and no other. *)
Lemma main_loop_traverse (rows : list node) D P (t : list event) :
  main_loop rows D P t = traverse (filter is_data_row rows) D P t.
Proof.
  revert D P t. induction rows as [|row rows IH]; intros D P t; [done|].
  rewrite filter_cons. simpl main_loop.
  destruct (is_data_row row) eqn:Hrow; simpl; [|apply IH].
  rewrite !bind_lift.
  destruct (process_district_row row) as [[[c n] u]| |]; [|done..].
  unfold fetch_district_data. rewrite !bind_M, !fetch_page_eq.
  destruct (http_get u) as [soup|]; [|done].
  simpl. apply IH.
Qed.

(** A traversal that ends well, read as a list of visits. *)
Lemma traverse_Ok (selected : list node) D P t t' D' P' :
  traverse selected D P t = (t', Ok (D', P'))
  ↔ ∃ visits : list visit,
      v_row <$> visits = selected
      ∧ Forall visit_ok visits
      ∧ D' = D ++ (visit_record <$> visits)
      ∧ P' = P ++ mjoin (visit_pairs <$> visits)
      ∧ t' = t ++ (Get ∘ v_url <$> visits).
Proof.
  revert D P t. induction selected as [|row rest IH]; intros D P t.
  - simpl. split.
    + intros [= <- <- <-]. exists []. by rewrite !app_nil_r.
    + intros ([|v vs] & Hrows & _ & -> & -> & ->); [|done].
      by rewrite !app_nil_r.
  - simpl traverse. rewrite bind_lift.
    assert (Hhead : ∀ (v : visit) vs,
               v_row <$> v :: vs = row :: rest → Forall visit_ok (v :: vs) →
               process_district_row row = Ok (v_code v, v_name v, v_url v)
               ∧ http_get (v_url v) = Some (v_page v)
               ∧ v_row <$> vs = rest ∧ Forall visit_ok vs).
    { intros v vs [= <- <-] [[Hv Hg] Hok]%Forall_cons. done. }
    destruct (process_district_row row) as [[[c n] u]| |] eqn:Hrow.
    + rewrite bind_M, fetch_page_eq.
      destruct (http_get u) as [soup|] eqn:Hget.
      * cbv zeta. rewrite IH. split.
        -- intros (vs & <- & Hok & -> & -> & ->).
           exists (Visit row c n u soup :: vs).
           split; [done|]. split; [by constructor|].
           rewrite !fmap_cons, <- !app_assoc. done.
        -- intros ([|v vs] & Hrows & Hok & -> & -> & ->); [done|].
           destruct (Hhead _ _ Hrows Hok) as ([= -> -> ->] & Hg & Hr & Hf).
           rewrite Hget in Hg. injection Hg as ->.
           exists vs. split; [done|]. split; [done|].
           rewrite !fmap_cons, <- !app_assoc. done.
      * split; [done|].
        intros ([|v vs] & Hrows & Hok & _); [done|].
        destruct (Hhead _ _ Hrows Hok) as ([= -> -> ->] & Hg & _).
        by rewrite Hget in Hg.
    + split; [done|].
      intros ([|v vs] & Hrows & Hok & _); [done|].
      by destruct (Hhead _ _ Hrows Hok) as (? & _).
    + split; [done|].
      intros ([|v vs] & Hrows & Hok & _); [done|].
      by destruct (Hhead _ _ Hrows Hok) as (? & _).
Qed.
End program_facts.

Section run_facts.
Context `{Python} `{Web} `{Disk}.

Lemma bind_Ok {A B} (m : M A) (f : A → M B) t t' b :
  (m ≫= f) t = (t', Ok b)
  → ∃ a t1, m t = (t1, Ok a) ∧ f a t1 = (t', Ok b).
Proof.
  rewrite bind_M. destruct (m t) as [t1 [a| |]]; [|done..].
  intros Hf. by exists a, t1.
Qed.

Lemma party_rows_omap (soup : node) :
  party_rows soup = omap extract_party_data (find_all tr any_attrs soup).
Proof.
  unfold party_rows.
  assert (Hgen : ∀ rows acc,
             foldl (λ party_list row,
                      match extract_party_data row with
                      | Some party_data => party_list ++ [party_data]
                      | None => party_list
                      end) acc rows
             = acc ++ omap extract_party_data rows).
  { induction rows as [|row rows IH]; intros acc; simpl.
    - by rewrite app_nil_r.
    - rewrite IH. destruct (extract_party_data row); [|done].
      by rewrite <- app_assoc. }
  by rewrite Hgen.
Qed.

Lemma visit_pairs_eq (v : visit) :
  visit_pairs v
  = code_and_name
      <$> sort_by party_code
            (omap extract_party_data (find_all tr any_attrs (v_page v))).
Proof.
  unfold visit_pairs, district_of_page. simpl. by rewrite party_rows_omap.
Qed.

Lemma validate_arguments_trace args t t' r :
  validate_arguments args t = (t', r) → t' = t.
Proof.
  unfold validate_arguments. case_bool_decide; [by intros [= <- _]|].
  rewrite bind_lift. destruct (index args 1); [|by intros [= <- _]..].
  rewrite bind_lift. destruct (index args 2); [|by intros [= <- _]..].
  repeat (case_bool_decide || case_match); by intros [= <- _].
Qed.

(** A run that ends well wrote one file, after visiting the data rows of
    the district page. *)
Lemma main_Ok (args : list pystr) (t0 t : list event) :
  main args t0 = (t, Ok tt)
  → ∃ input_value csv_file t2 url soup (visits : list visit),
      validate_arguments args t0 = (t0, Ok (input_value, csv_file))
      ∧ district_url input_value t0 = (t2, Ok url)
      ∧ http_get url = Some soup
      ∧ v_row <$> visits
        = filter is_data_row (find_all tr any_attrs soup)
      ∧ Forall visit_ok visits
      ∧ visits ≠ []
      ∧ let csv_columns :=
          fixed_columns
            ++ ordered_party_names (mjoin (visit_pairs <$> visits)) in
        let rows := csv_row csv_columns <$> (visit_record <$> visits) in
        disk_failure csv_file (csv_columns :: rows) = None
        ∧ t = ((t2 ++ [Get url]) ++ (Get ∘ v_url <$> visits))
              ++ [WriteCsv csv_file csv_columns rows].
Proof.
  unfold main. intros Hmain.
  apply bind_Ok in Hmain as ([input_value csv_file] & t1 & Hargs & Hmain).
  pose proof (validate_arguments_trace _ _ _ _ Hargs) as ->.
  apply bind_Ok in Hmain as (url & t2 & Hurl & Hmain).
  apply bind_Ok in Hmain as (soup & t3 & Hsoup & Hmain).
  apply bind_Ok in Hmain as ([D P] & t4 & Hloop & Hmain).
  rewrite fetch_page_eq in Hsoup.
  destruct (http_get url) as [soup'|] eqn:Hget; [|done].
  injection Hsoup as <- <-.
  rewrite main_loop_traverse in Hloop.
  apply traverse_Ok in Hloop as (visits & Hrows & Hok & -> & -> & ->).
  simpl in Hmain. case_bool_decide as Hempty; [done|].
  unfold write_to_csv in Hmain.
  destruct (disk_failure csv_file _) as [[|n]|] eqn:Hdisk; [done..|].
  injection Hmain as <-.
  exists input_value, csv_file, t2, url, soup', visits.
  repeat split; try done. by intros ->.
Qed.
End run_facts.

Lemma first_occurrences_precedes (l : list pystr) (a b : pystr) :
  a ≠ b → first_seen_before a b l → precedes a b (first_occurrences l).
Proof.
  intros Hab (l1 & l2 & -> & Ha & Hb & Hin).
  rewrite first_occurrences_app. simpl.
  rewrite filter_cons_True by done.
  assert (Hb' : b ∈ filter (λ y, y ∉ l1)
                     (filter (λ y, y ≠ a) (first_occurrences l2))).
  { rewrite !list_elem_of_filter, elem_of_first_occurrences. done. }
  apply list_elem_of_split in Hb' as (r2 & r3 & ->).
  by exists (first_occurrences l1), r2, r3.
Qed.

Lemma sort_by_code_determined (l1 l2 : list (Z * pystr)) :
  l1 ≡ₚ l2 → code_determines_name l1 → sort_by fst l1 = sort_by fst l2.
Proof.
  intros Hperm Hfun.
  apply (StronglySorted_unique_strong (key_le fst)).
  - intros [c1 n1] [c2 n2] H1 H2 Hle1 Hle2.
    unfold key_le in *. simpl in *.
    assert (c1 = c2) as -> by lia. f_equal.
    rewrite sort_by_perm in H1. rewrite sort_by_perm, <- Hperm in H2.
    by eapply Hfun.
  - apply sort_by_sorted.
  - apply sort_by_sorted.
  - by rewrite !sort_by_perm.
Qed.

(** ** C1: the global party order *)

(** C1. In every run that exports, the districts visited are the data
    rows of the district page the run fetched, each with the page behind
    its link, and the header's party columns are the global party order of
    those pages: the (code, name) pairs the party vote extractor emitted on
    the pages of all districts are accumulated (each district's
    contribution in code order), the accumulation is sorted by code,
    ascending and stably, and the first occurrence of each distinct name
    is kept. So every name the extractor emitted on a visited page is a
    column, and every party column was emitted on one. Its length is the
    number of distinct names observed, and of two names the one first met
    in the sorted accumulation comes first, which settles a code shared by
    two names. *)
Theorem global_party_order_of_run `{Python} `{Web} `{Disk}
    (args : list pystr) (t : list event) :
  main args [] = (t, Ok tt)
  → ∃ input_value csv_file t2 url soup (visits : list visit),
      let observed := mjoin (visit_pairs <$> visits) in
      let sorted := sort_by fst observed in
      let gpo := ordered_party_names observed in
      let header := fixed_columns ++ gpo in
      validate_arguments args [] = ([], Ok (input_value, csv_file))
      ∧ district_url input_value [] = (t2, Ok url)
      ∧ http_get url = Some soup
      ∧ v_row <$> visits = filter is_data_row (find_all tr any_attrs soup)
      ∧ Forall visit_ok visits
      ∧ visits ≠ []
      ∧ t = ((t2 ++ [Get url]) ++ (Get ∘ v_url <$> visits))
            ++ [WriteCsv csv_file header
                  (csv_row header <$> (visit_record <$> visits))]
      ∧ (∀ v, visit_pairs v
              = code_and_name
                  <$> sort_by party_code
                        (omap extract_party_data
                           (find_all tr any_attrs (v_page v))))
      ∧ (∀ v row code name votes,
           v ∈ visits
           → row ∈ find_all tr any_attrs (v_page v)
           → extract_party_data row = Some (code, name, votes)
           → (code, name) ∈ observed ∧ name ∈ gpo)
      ∧ sorted ≡ₚ observed
      ∧ StronglySorted (key_le fst) sorted
      ∧ (∀ c, filter (λ p, p.1 = c) sorted = filter (λ p, p.1 = c) observed)
      ∧ gpo = first_occurrences (sorted.*2)
      ∧ NoDup gpo
      ∧ (∀ n, n ∈ gpo ↔ n ∈ observed.*2)
      ∧ length gpo = size (list_to_set (observed.*2) : gset pystr)
      ∧ (∀ a b, a ≠ b → first_seen_before a b (sorted.*2)
                → precedes a b gpo).
Proof.
  intros Hmain.
  apply main_Ok in Hmain
    as (input_value & csv_file & t2 & url & soup & visits & Hargs & Hurl
        & Hget & Hrows & Hok & Hne & Hlast).
  cbv zeta in Hlast. destruct Hlast as [_ ->].
  exists input_value, csv_file, t2, url, soup, visits. cbv zeta.
  do 7 (split; [done|]).
  split; [apply visit_pairs_eq|].
  split.
  { intros v row code name votes Hv Hrow Hdata.
    assert (Hin : (code, name) ∈ mjoin (visit_pairs <$> visits)).
    { apply list_elem_of_join. exists (visit_pairs v).
      split; [|apply list_elem_of_fmap; by exists v].
      rewrite visit_pairs_eq. apply list_elem_of_fmap.
      exists (code, name, votes). split; [done|].
      rewrite sort_by_perm. apply list_elem_of_omap. by exists row. }
    split; [done|].
    apply elem_of_ordered_party_names, list_elem_of_fmap.
    by exists (code, name). }
  split; [apply sort_by_perm|].
  split; [apply sort_by_sorted|].
  split; [intros c; apply (sort_by_stable fst)|].
  split; [apply ordered_party_names_first_occurrences|].
  split; [apply NoDup_ordered_party_names|].
  split; [apply elem_of_ordered_party_names|].
  split; [apply length_ordered_party_names|].
  intros a b Hab Hseen.
  rewrite ordered_party_names_first_occurrences.
  by apply first_occurrences_precedes.
Qed.

(** ** C2: the order of the districts *)

(** C2, as amended. When no code occurs under two different names, the
    global party order does not depend on the order in which the
    districts contributed to the accumulation. *)
Theorem party_order_independent_of_district_order
    (districts1 districts2 : list (list (Z * pystr))) :
  districts1 ≡ₚ districts2
  → code_determines_name (accumulate districts1)
  → ordered_party_names (accumulate districts1)
    = ordered_party_names (accumulate districts2).
Proof.
  intros Hperm Hfun.
  rewrite !ordered_party_names_first_occurrences.
  f_equal. f_equal. apply sort_by_code_determined; [|done].
  rewrite !accumulate_concat. by rewrite Hperm.
Qed.

(** C2 as stated fails: two districts list the same code under different
    names, and the order of the two columns follows the order of the
    visits. The two runs below differ only in the order of the rows of
    the district page. *)
Lemma party_order_depends_on_district_order :
  let district1 := [(1, str "A")] in
  let district2 := [(1, str "B")] in
  [district1; district2] ≡ₚ [district2; district1]
  ∧ ordered_party_names (accumulate [district1; district2])
    = [str "A"; str "B"]
  ∧ ordered_party_names (accumulate [district2; district1])
    = [str "B"; str "A"]
  ∧ ordered_party_names (accumulate [district1; district2])
    ≠ ordered_party_names (accumulate [district2; district1])
  ∧ last (Site.run ["prog"; "https://www.volby.cz/ab"; "out.csv"]).1
    = Some (WriteCsv (str "out.csv") (fixed_columns ++ [str "A"; str "B"])
              [[str "1"; str "Obec A"; NA; NA; NA; str "10"; zero];
               [str "2"; str "Obec B"; NA; NA; NA; zero; str "20"]])
  ∧ last (Site.run ["prog"; "https://www.volby.cz/ba"; "out.csv"]).1
    = Some (WriteCsv (str "out.csv") (fixed_columns ++ [str "B"; str "A"])
              [[str "2"; str "Obec B"; NA; NA; NA; str "20"; zero];
               [str "1"; str "Obec A"; NA; NA; NA; zero; str "10"]]).
Proof.
  cbv zeta. split; [apply Permutation_swap|].
  assert (H1 : ordered_party_names (accumulate [[(1, str "A")]; [(1, str "B")]])
               = [str "A"; str "B"]) by (vm_compute; reflexivity).
  assert (H2 : ordered_party_names (accumulate [[(1, str "B")]; [(1, str "A")]])
               = [str "B"; str "A"]) by (vm_compute; reflexivity).
  rewrite H1, H2. split; [done|]. split; [done|]. split; [discriminate|].
  split; vm_compute; reflexivity.
Qed.

(** ** Trimming and the non-breaking space *)

Lemma lstrip_head (s : pystr) (c : N) :
  head (lstrip s) = Some c → isspace c = false.
Proof.
  induction s as [|d s IH]; simpl; [done|].
  destruct (isspace d) eqn:Hd; [done|]. by intros [= <-].
Qed.

Lemma lstrip_suffix (s : pystr) :
  ∃ w, s = w ++ lstrip s ∧ Forall (λ c, isspace c = true) w.
Proof.
  induction s as [|d s (w & Hs & Hw)]; simpl.
  - by exists [].
  - destruct (isspace d) eqn:Hd.
    + exists (d :: w). split; [by rewrite Hs at 1|by constructor].
    + by exists [].
Qed.

Lemma rstrip_last (s : pystr) (c : N) :
  last (rstrip s) = Some c → isspace c = false.
Proof. unfold rstrip. rewrite last_reverse. apply lstrip_head. Qed.

Lemma rstrip_prefix (s : pystr) :
  ∃ w, s = rstrip s ++ w ∧ Forall (λ c, isspace c = true) w.
Proof.
  destruct (lstrip_suffix (reverse s)) as (w & Hs & Hw).
  exists (reverse w). split.
  - unfold rstrip. rewrite <- reverse_app, <- Hs. by rewrite reverse_involutive.
  - by apply Forall_reverse.
Qed.

Lemma strip_trimmed (s : pystr) : trimmed (strip s).
Proof.
  unfold strip. split; [|apply rstrip_last].
  intros c Hc. destruct (rstrip_prefix (lstrip s)) as (w & Hs & _).
  apply (lstrip_head s). rewrite Hs.
  destruct (rstrip (lstrip s)); [done|]. exact Hc.
Qed.

Lemma not_space_not_nbsp (c : N) : isspace c = false → c ≠ nbsp.
Proof. intros Hc ->. by rewrite isspace_nbsp in Hc. Qed.

Lemma remove_nbsp_trimmed (s : pystr) :
  trimmed s → trimmed (remove_nbsp s).
Proof.
  unfold remove_nbsp. intros [Hhead Hlast]. split.
  - destruct s as [|d s]; [done|].
    rewrite filter_cons_True by (apply not_space_not_nbsp; by apply Hhead).
    apply Hhead.
  - destruct (decide (s = [])) as [->|Hne]; [done|].
    destruct (exists_last Hne) as (s' & d & ->).
    rewrite last_snoc in Hlast.
    rewrite filter_app, filter_cons_True
      by (apply not_space_not_nbsp; by apply Hlast).
    rewrite filter_nil, last_snoc. apply Hlast.
Qed.

Lemma nbsp_not_in_remove_nbsp (s : pystr) : nbsp ∉ remove_nbsp s.
Proof. unfold remove_nbsp. rewrite list_elem_of_filter. naive_solver. Qed.

Lemma lstrip_remove_nbsp (s : pystr) :
  lstrip (remove_nbsp s) = remove_nbsp (lstrip s).
Proof.
  unfold remove_nbsp. induction s as [|d s IH]; [done|].
  rewrite filter_cons. simpl lstrip. destruct (isspace d) eqn:Hd.
  - destruct (decide (d ≠ nbsp)); simpl; rewrite ?Hd; exact IH.
  - assert (d ≠ nbsp) by by apply not_space_not_nbsp.
    rewrite decide_True by done. simpl. rewrite Hd.
    by rewrite filter_cons_True.
Qed.

Lemma rstrip_remove_nbsp (s : pystr) :
  rstrip (remove_nbsp s) = remove_nbsp (rstrip s).
Proof.
  unfold rstrip. unfold remove_nbsp at 1. rewrite <- filter_reverse.
  fold (remove_nbsp (reverse s)). rewrite lstrip_remove_nbsp.
  unfold remove_nbsp. by rewrite filter_reverse.
Qed.

(** Trimming first or removing the non-breaking spaces first gives the
    same text. *)
Lemma strip_remove_nbsp (s : pystr) :
  remove_nbsp (strip s) = strip (remove_nbsp s).
Proof.
  unfold strip. by rewrite lstrip_remove_nbsp, rstrip_remove_nbsp.
Qed.

(** ** Queries on the document *)

Lemma head_filter_None {A} (P : A → Prop) `{!∀ x, Decision (P x)}
    (l : list A) :
  head (filter P l) = None ↔ ∀ x, x ∈ l → ¬ P x.
Proof.
  induction l as [|x l IH]; simpl.
  - split; [|done]. intros _ x Hx. by apply elem_of_nil in Hx.
  - rewrite filter_cons. destruct (decide (P x)) as [HP|HP]; simpl.
    + split; [done|]. intros Hall. destruct (Hall x); [left|done].
    + rewrite IH. split.
      * intros Hall y [->|Hy]%elem_of_cons; [done|by apply Hall].
      * intros Hall y Hy. apply Hall. by right.
Qed.

Lemma head_filter_Some {A} (P : A → Prop) `{!∀ x, Decision (P x)}
    (l : list A) (x : A) :
  head (filter P l) = Some x
  ↔ ∃ l1 l2, l = l1 ++ x :: l2 ∧ P x ∧ ∀ y, y ∈ l1 → ¬ P y.
Proof.
  induction l as [|y l IH]; simpl.
  - split; [done|]. by intros ([|??] & ? & ? & _).
  - rewrite filter_cons. destruct (decide (P y)) as [HP|HP]; simpl.
    + split.
      * intros [= ->]. exists [], l. split; [done|]. split; [done|].
        intros z Hz. by apply elem_of_nil in Hz.
      * intros ([|z l1] & l2 & [= -> ->] & Hx & Hl1); [done|].
        destruct (Hl1 z); [left|done].
    + rewrite IH. split.
      * intros (l1 & l2 & -> & Hx & Hl1). exists (y :: l1), l2.
        split; [done|]. split; [done|].
        intros z [->|Hz]%elem_of_cons; [done|by apply Hl1].
      * intros ([|z l1] & l2 & [= -> ->] & Hx & Hl1); [done|].
        exists l1, l2. split; [done|]. split; [done|].
        intros w Hw. apply Hl1. by right.
Qed.

(** [find] gives the first matching tag below the node, in document
    order, and [None] only when there is none. *)
Lemma find_None (name : pystr) (p : attributes → bool) (n : node) :
  find name p n = None
  ↔ ∀ d, d ∈ descendants n → ¬ (is_tag name d && p (node_attrs d)).
Proof.
  unfold find, find_all.
  apply (head_filter_None (λ d, Is_true (is_tag name d && p (node_attrs d)))).
Qed.

Lemma find_Some (name : pystr) (p : attributes → bool) (n c : node) :
  find name p n = Some c
  ↔ ∃ l1 l2, descendants n = l1 ++ c :: l2
             ∧ is_tag name c && p (node_attrs c)
             ∧ ∀ d, d ∈ l1 → ¬ (is_tag name d && p (node_attrs d)).
Proof.
  unfold find, find_all.
  apply (head_filter_Some (λ d, Is_true (is_tag name d && p (node_attrs d)))).
Qed.

Lemma find_is_Some (name : pystr) (p : attributes → bool) (n : node) :
  is_Some (find name p n)
  ↔ ∃ d, d ∈ descendants n ∧ is_tag name d && p (node_attrs d).
Proof.
  split.
  - intros [c (l1 & l2 & Hd & Hc & _)%find_Some].
    exists c. split; [|done]. rewrite Hd. set_solver.
  - intros (d & Hd & Hp). destruct (find name p n) eqn:Hfind; [done|].
    rewrite find_None in Hfind. by destruct (Hfind d Hd).
Qed.

(** ** C4: the party vote extractor *)

(** C4. A row yields a triple exactly when it has a code cell (a numeric
    cell whose header reference is one of the two variants), a party-name
    cell and at least two numeric cells, and the trimmed text of the code
    cell parses as an integer. The triple is that integer, the trimmed
    text of the name cell, and the trimmed text of the second numeric cell
    without non-breaking spaces. Every other row yields nothing, and the
    page's triples are those of its rows in document order: a row without
    one is passed over. *)
Theorem party_triple_emitted_iff `{Python} (row : node) :
  let vote_cells := find_all td (class_is cislo) row in
  (∀ code party_name votes,
     extract_party_data row = Some (code, party_name, votes)
     ↔ ∃ cislo_cell party_name_cell vote_cell,
         find td is_code_cell row = Some cislo_cell
         ∧ find td (class_is overflow_name) row = Some party_name_cell
         ∧ vote_cells !! 1%nat = Some vote_cell
         ∧ py_int (strip (text cislo_cell)) = Some code
         ∧ party_name = strip (text party_name_cell)
         ∧ votes = remove_nbsp (strip (text vote_cell)))
  ∧ (is_Some (extract_party_data row)
     ↔ (∃ d, d ∈ descendants row
             ∧ is_tag td d
             ∧ class_is cislo (node_attrs d)
             ∧ matches_any (attr_headers (node_attrs d))
                 [t1sa1_t1sb1; t2sa1_t2sb1])
       ∧ (∃ d, d ∈ descendants row
               ∧ is_tag td d
               ∧ class_is overflow_name (node_attrs d))
       ∧ (2 ≤ length vote_cells)%nat
       ∧ (∃ cislo_cell, find td is_code_cell row = Some cislo_cell
                        ∧ is_Some (py_int (strip (text cislo_cell)))))
  ∧ (∀ code party_name votes,
       extract_party_data row = Some (code, party_name, votes)
       → (nbsp ∉ votes) ∧ trimmed votes)
  ∧ (∀ soup, party_rows soup
             = omap extract_party_data (find_all tr any_attrs soup)).
Proof.
  cbv zeta.
  assert (Hchar : ∀ code party_name votes,
     extract_party_data row = Some (code, party_name, votes)
     ↔ ∃ cislo_cell party_name_cell vote_cell,
         find td is_code_cell row = Some cislo_cell
         ∧ find td (class_is overflow_name) row = Some party_name_cell
         ∧ find_all td (class_is cislo) row !! 1%nat = Some vote_cell
         ∧ py_int (strip (text cislo_cell)) = Some code
         ∧ party_name = strip (text party_name_cell)
         ∧ votes = remove_nbsp (strip (text vote_cell))).
  { intros code party_name votes. unfold extract_party_data. split.
    - destruct (find td is_code_cell row) as [cc|]; [|done].
      destruct (find td (class_is overflow_name) row) as [pc|]; [|done].
      case_bool_decide; [|done].
      destruct (py_int (strip (text cc))) as [c|] eqn:Hparse; [|done].
      destruct (find_all td (class_is cislo) row !! 1%nat) as [vc|]; [|done].
      intros [= <- <- <-]. by exists cc, pc, vc.
    - intros (cc & pc & vc & -> & -> & Hvc & -> & -> & ->).
      rewrite Hvc. apply lookup_lt_Some in Hvc.
      by rewrite bool_decide_eq_true_2 by lia. }
  split; [exact Hchar|]. split; [|split].
  - split.
    + intros [[[c n] v] Hsome]. apply Hchar in Hsome
        as (cc & pc & vc & Hcc & Hpc & Hvc & Hparse & _ & _).
      split; [|split; [|split]].
      * assert (is_Some (find td is_code_cell row)) as Hfound
          by by rewrite Hcc.
        apply find_is_Some in Hfound as (d & Hd & Hp).
        unfold is_code_cell in Hp. rewrite !andb_True in Hp.
        exists d. naive_solver.
      * assert (is_Some (find td (class_is overflow_name) row)) as Hfound
          by by rewrite Hpc.
        apply find_is_Some in Hfound as (d & Hd & Hp).
        rewrite andb_True in Hp. exists d. naive_solver.
      * apply lookup_lt_Some in Hvc. lia.
      * exists cc. by rewrite Hparse.
    + intros (_ & (d & Hd & Htd & Hname) & Hlen & cc & Hcc & [c Hparse]).
      assert (is_Some (find td (class_is overflow_name) row)) as [pc Hpc].
      { apply find_is_Some. exists d. by rewrite andb_True. }
      destruct (lookup_lt_is_Some_2 (find_all td (class_is cislo) row) 1)
        as [vc Hvc]; [lia|].
      exists (c, strip (text pc), remove_nbsp (strip (text vc))).
      apply Hchar. by exists cc, pc, vc.
  - intros code party_name votes (_ & _ & vc & _ & _ & _ & _ & _ & ->)%Hchar.
    split; [apply nbsp_not_in_remove_nbsp|].
    apply remove_nbsp_trimmed, strip_trimmed.
  - apply party_rows_omap.
Qed.

(** ** C5 and C6: the district locator *)

Section locator_facts.
Context `{Python} `{Web} `{Disk}.

Lemma locate_in_row_eq (district_name : pystr) (row : node) :
  locate_in_row district_name row
  = if row_matches district_name row then Some (url_of_row row) else None.
Proof.
  unfold locate_in_row, row_matches, url_of_row, index.
  case_bool_decide as Hlen; [|done]. simpl.
  destruct (lookup_lt_is_Some_2 (find_all td any_attrs row) 1)
    as [cell1 ->]; [lia|].
  by case_bool_decide.
Qed.

Lemma locate_in_rows_eq (district_name : pystr) (rows : list node) :
  locate_in_rows district_name rows
  = url_of_row <$> head (filter (row_matches district_name) rows).
Proof.
  induction rows as [|row rows IH]; [done|].
  simpl locate_in_rows. rewrite locate_in_row_eq, filter_cons.
  destruct (row_matches district_name row); simpl; [done|apply IH].
Qed.

Lemma locate_in_tables_eq (district_name : pystr) (tables : list node) :
  locate_in_tables district_name tables
  = url_of_row
      <$> head (filter (row_matches district_name)
                  (tbl ← tables; drop 2 (find_all tr any_attrs tbl))).
Proof.
  induction tables as [|tbl tables IH]; [done|].
  simpl locate_in_tables. rewrite locate_in_rows_eq.
  rewrite bind_cons, filter_app.
  destruct (filter (row_matches district_name)
              (drop 2 (find_all tr any_attrs tbl))) as [|row rows];
    simpl; [apply IH|done].
Qed.

Lemma get_url_from_name_eq (district_name : pystr) (t : list event) :
  get_url_from_name district_name t
  = if str_isdigit district_name then (t, Exit InvalidInput)
    else (t ++ [Get BASE_URL],
          match http_get BASE_URL with
          | Some soup => locate district_name soup
          | None => Exit FetchError
          end).
Proof.
  unfold get_url_from_name. destruct (str_isdigit district_name); [done|].
  rewrite bind_M, fetch_page_eq.
  destruct (http_get BASE_URL) as [soup|]; [|done].
  rewrite locate_in_tables_eq. unfold locate, index_rows.
  by destruct (head _).
Qed.
End locator_facts.

(** C5. A purely numeric district name makes the district locator exit
    with [InvalidInput] and leaves the trace as it was; a run started with
    such a name ends there with an empty trace: no page was requested and
    no file written. *)
Theorem numeric_name_is_invalid_input `{Python} `{Web} `{Disk}
    (district_name : pystr) :
  str_isdigit district_name = true
  → (∀ t, get_url_from_name district_name t = (t, Exit InvalidInput))
    ∧ (∀ args csv_file,
         validate_arguments args [] = ([], Ok (district_name, csv_file))
         → contains volby_cz district_name = false
         → main args [] = ([], Exit InvalidInput)).
Proof.
  intros Hdigit. split.
  - intros t. by rewrite get_url_from_name_eq, Hdigit.
  - intros args csv_file Hargs Hname. unfold main.
    rewrite bind_M, Hargs. simpl. unfold district_url. rewrite Hname.
    by rewrite bind_M, get_url_from_name_eq, Hdigit.
Qed.

(** C6. For a name that is not numeric the district locator requests the
    fixed index page, once. If the page cannot be fetched it exits with
    [FetchError]. Otherwise the candidate rows are the rows of each index
    table after its first two; the first candidate row with more than
    three cells whose second cell's trimmed text equals the name, case
    ignored, decides: the result is the site prefix followed by the href
    of the first anchor in its fourth cell. When no candidate row matches,
    the locator exits with [NotFound]. *)
Theorem district_locator_first_match `{Python} `{Web}
    (district_name : pystr) (t : list event) :
  str_isdigit district_name = false
  → ∃ r, get_url_from_name district_name t = (t ++ [Get BASE_URL], r)
      ∧ (http_get BASE_URL = None → r = Exit FetchError)
      ∧ ∀ soup, http_get BASE_URL = Some soup →
          r = locate district_name soup
          ∧ ((∀ row, row ∈ index_rows soup
                     → row_matches district_name row = false)
             → r = Exit NotFound)
          ∧ (∀ before row after cell2 cell4 a href,
               index_rows soup = before ++ row :: after
               → (∀ row', row' ∈ before
                          → row_matches district_name row' = false)
               → (3 < length (find_all td any_attrs row))%nat
               → find_all td any_attrs row !! 1%nat = Some cell2
               → str_lower (strip (text cell2)) = str_lower district_name
               → find_all td any_attrs row !! 3%nat = Some cell4
               → find a_tag any_attrs cell4 = Some a
               → attr_href (node_attrs a) = Some href
               → r = Ok (SITE ++ href)).
Proof.
  intros Hdigit. rewrite get_url_from_name_eq, Hdigit.
  eexists. split; [done|]. split; [by intros ->|].
  intros soup ->. split; [done|]. split.
  - intros Hnone. unfold locate.
    destruct (head _) as [row|] eqn:Hhead; [|done].
    apply head_Some_elem_of, list_elem_of_filter in Hhead as [Hm Hin].
    apply Hnone in Hin. by rewrite Hin in Hm.
  - intros before row after cell2 cell4 a href Hrows Hbefore Hlen Hc2 Hname
      Hc4 Ha Hhref.
    unfold locate.
    assert (head (filter (row_matches district_name) (index_rows soup))
            = Some row) as ->.
    { apply (head_filter_Some (λ r, Is_true (row_matches district_name r))).
      exists before, after. split; [done|]. split.
      - unfold row_matches. rewrite Hc2.
        rewrite bool_decide_eq_true_2 by done.
        by rewrite bool_decide_eq_true_2 by done.
      - intros row' Hin. apply Hbefore in Hin. rewrite Hin. simpl. tauto. }
    unfold url_of_row, index, anchor_href. rewrite Hc4. simpl.
    rewrite Ha. by rewrite Hhref.
Qed.

(** ** C7: the district statistics *)

(** C7. [extract_district_stats] is a total function: for every page it
    returns a dictionary with exactly the three keys. Each value is
    ["N/A"] when the page has no cell with that header reference, and
    otherwise the text of the first such cell, trimmed and without
    non-breaking spaces; trimming and removing may be done in either
    order. *)
Theorem district_stats_never_fail (soup : node) :
  let stats := extract_district_stats soup in
  dom stats = ({[k_registered; k_envelopes; k_valid]} : gset pystr)
  ∧ (∀ key header,
       (key, header) ∈ [(k_registered, sa2); (k_envelopes, sa3);
                        (k_valid, sa6)]
       → match find td (headers_is header) soup with
         | Some cell =>
             cell ∈ descendants soup
             ∧ stats !! key = Some (remove_nbsp (strip (text cell)))
         | None =>
             (∀ d, d ∈ descendants soup
                   → ¬ (is_tag td d ∧ headers_is header (node_attrs d)))
             ∧ stats !! key = Some NA
         end)
  ∧ (∀ s, let value := remove_nbsp (strip s) in
          (nbsp ∉ value) ∧ trimmed value ∧ value = strip (remove_nbsp s)).
Proof.
  cbv zeta. split; [|split].
  - unfold extract_district_stats. rewrite !dom_insert_L, dom_empty_L.
    set_solver.
  - intros key header Hin.
    assert (Hval : extract_district_stats soup !! key
                   = Some (stat_value (find td (headers_is header) soup))).
    { unfold extract_district_stats.
      rewrite !elem_of_cons, elem_of_nil in Hin.
      destruct Hin as [Heq|[Heq|[Heq|[]]]];
        apply pair_equal_spec in Heq as [-> ->].
      - by rewrite lookup_insert_ne, lookup_insert_ne, lookup_insert_eq.
      - by rewrite lookup_insert_ne, lookup_insert_eq.
      - by rewrite lookup_insert_eq. }
    rewrite Hval.
    destruct (find td (headers_is header) soup) as [cell|] eqn:Hfind.
    + split; [|done].
      apply find_Some in Hfind as (l1 & l2 & -> & _). set_solver.
    + split; [|done]. intros d Hd [Htd Hh].
      rewrite find_None in Hfind. apply (Hfind d Hd).
      by rewrite andb_True.
  - intros s. split; [apply nbsp_not_in_remove_nbsp|]. split.
    + apply remove_nbsp_trimmed, strip_trimmed.
    + apply strip_remove_nbsp.
Qed.

(** ** C8: nothing to export *)

Section export_facts.
Context `{Python} `{Web} `{Disk}.

Lemma nothing_written_app (t1 t2 : list event) :
  nothing_written t1 → nothing_written t2 → nothing_written (t1 ++ t2).
Proof.
  intros Hleft Hright e [Hin|Hin]%elem_of_app;
    [by apply Hleft|by apply Hright].
Qed.

Lemma nothing_written_gets (urls : list pystr) :
  nothing_written (Get <$> urls).
Proof. by intros e (u & -> & _)%list_elem_of_fmap. Qed.

Lemma nothing_written_nil : nothing_written [].
Proof. intros e Hin. by apply elem_of_nil in Hin. Qed.

Lemma nothing_written_head (url : pystr) : nothing_written [Head url].
Proof.
  intros e [->|Hin]%elem_of_cons; [done|by apply elem_of_nil in Hin].
Qed.

Lemma district_url_trace (input_value : pystr) (t t' : list event) r :
  district_url input_value t = (t', r)
  → ∃ e, t' = t ++ e ∧ nothing_written e.
Proof.
  unfold district_url. destruct (contains volby_cz input_value).
  - rewrite bind_M. unfold validate_url. rewrite bind_emit.
    pose proof (nothing_written_head input_value) as Hhead.
    destruct (http_head input_value); intros [= <- _];
      by exists [Head input_value].
  - rewrite get_url_from_name_eq.
    destruct (str_isdigit input_value); intros [= <- _].
    + exists []. split; [by rewrite app_nil_r|].
      apply nothing_written_nil.
    + exists [Get BASE_URL]. split; [done|].
      apply (nothing_written_gets [BASE_URL]).
Qed.

(** Whatever its result, the traversal only requests pages. *)
Lemma traverse_trace (selected : list node) D P (t t' : list event) r :
  traverse selected D P t = (t', r)
  → ∃ urls, t' = t ++ (Get <$> urls).
Proof.
  revert D P t. induction selected as [|row rest IH]; intros D P t.
  - intros [= <- _]. exists []. by rewrite app_nil_r.
  - simpl traverse. rewrite bind_lift.
    destruct (process_district_row row) as [[[c n] u]| |];
      [|intros [= <- _]; exists []; by rewrite app_nil_r..].
    rewrite bind_M, fetch_page_eq.
    destruct (http_get u) as [soup|].
    + cbv zeta. intros (urls & ->)%IH. exists (u :: urls).
      by rewrite <- app_assoc.
    + intros [= <- _]. by exists [u].
Qed.

(** The traversal collects no record exactly when the page has no data
    row. *)
Lemma main_loop_empty (rows : list node) (t t' : list event) P' :
  main_loop rows [] [] t = (t', Ok ([], P'))
  ↔ filter is_data_row rows = [] ∧ t' = t ∧ P' = [].
Proof.
  rewrite main_loop_traverse, traverse_Ok. split.
  - intros ([|v vs] & Hrows & _ & Hd & -> & ->); [|done].
    by rewrite app_nil_r.
  - intros (Hrows & -> & ->). exists []. rewrite Hrows. simpl.
    rewrite app_nil_r. repeat split. constructor.
Qed.

(** A file is touched only by the export step: a run that ends otherwise
    than well or in the write exit has written nothing. *)
Lemma main_writes_only_at_the_end (args : list pystr) (t : list event) r :
  main args [] = (t, r) → r ≠ Ok tt → r ≠ Exit WriteError
  → nothing_written t.
Proof.
  unfold main. rewrite bind_M.
  destruct (validate_arguments args []) as [t1 r1] eqn:Hargs.
  apply validate_arguments_trace in Hargs as ->.
  pose proof nothing_written_nil as Hnil.
  destruct r1 as [[input_value csv_file]| |];
    [|by intros [= <- _] _ _..].
  rewrite bind_M.
  destruct (district_url input_value []) as [t2 r2] eqn:Hurl.
  apply district_url_trace in Hurl as (e & -> & He). simpl.
  destruct r2 as [url| |]; [|by intros [= <- _] _ _..].
  rewrite bind_M, fetch_page_eq.
  assert (Hfetch : nothing_written (e ++ [Get url])).
  { apply nothing_written_app; [done|]. apply (nothing_written_gets [url]). }
  destruct (http_get url) as [soup|]; [|by intros [= <- _] _ _].
  rewrite bind_M, main_loop_traverse.
  destruct (traverse _ [] [] (e ++ [Get url])) as [t3 r3] eqn:Hloop.
  apply traverse_trace in Hloop as (urls & ->).
  assert (Hloop : nothing_written ((e ++ [Get url]) ++ (Get <$> urls))).
  { apply nothing_written_app; [done|]. apply nothing_written_gets. }
  destruct r3 as [[D P]| |]; [|by intros [= <- _] _ _..].
  case_bool_decide; [by intros [= <- _] _ _|].
  unfold write_to_csv.
  destruct (disk_failure csv_file _) as [[|n]|];
    by intros [= _ <-] Hr Hw.
Qed.
End export_facts.

(** C8. When the traversal of the district page collects no record, the
    run exits with [EmptyResult]; [write_to_csv] is not reached and the
    trace holds no written file. The traversal collects no record exactly
    when the page has no data row, and then it requests no page. *)
Theorem empty_traversal_aborts `{Python} `{Web} `{Disk}
    (args : list pystr) (input_value csv_file url : pystr) (soup : node)
    (t1 t2 : list event) (parties : list (Z * pystr)) :
  validate_arguments args [] = ([], Ok (input_value, csv_file))
  → district_url input_value [] = (t1, Ok url)
  → http_get url = Some soup
  → main_loop (find_all tr any_attrs soup) [] [] (t1 ++ [Get url])
    = (t2, Ok ([], parties))
  → main args [] = (t2, Exit EmptyResult)
    ∧ nothing_written t2
    ∧ filter is_data_row (find_all tr any_attrs soup) = []
    ∧ t2 = t1 ++ [Get url].
Proof.
  intros Hargs Hurl Hget Hloop.
  assert (Hmain : main args [] = (t2, Exit EmptyResult)).
  { unfold main. rewrite bind_M, Hargs. simpl.
    rewrite bind_M, Hurl, bind_M, fetch_page_eq, Hget.
    by rewrite bind_M, Hloop. }
  split; [done|]. split.
  - by eapply main_writes_only_at_the_end.
  - by apply main_loop_empty in Hloop as (? & ? & _).
Qed.

(** ** C9: the rows the traversal visits *)

Section row_facts.
Lemma is_data_row_eq (row : node) :
  is_data_row row = true
  ↔ (1 < length (find_all td any_attrs row))%nat
    ∧ first_cell_marked row = true.
Proof.
  unfold is_data_row, first_cell_marked.
  rewrite andb_true_iff, bool_decide_eq_true. done.
Qed.

Lemma process_data_row (row : node) :
  is_data_row row = true
  → ∃ cell1 cell2,
      find_all td any_attrs row !! 0%nat = Some cell1
      ∧ find_all td any_attrs row !! 1%nat = Some cell2
      ∧ attr_class (node_attrs cell1) = Some [cislo]
      ∧ process_district_row row
        = match find a_tag any_attrs cell1 with
          | None => Raise AttributeError
          | Some a =>
              match attr_href (node_attrs a) with
              | None => Raise KeyError
              | Some href =>
                  Ok (strip (text a), strip (text cell2), SITE ++ href)
              end
          end.
Proof.
  intros [Hlen Hmark]%is_data_row_eq. unfold first_cell_marked in Hmark.
  destruct (find_all td any_attrs row !! 0%nat) as [cell1|] eqn:H1; [|done].
  destruct (lookup_lt_is_Some_2 (find_all td any_attrs row) 1)
    as [cell2 H2]; [lia|].
  exists cell1, cell2. split; [done|]. split; [done|].
  split; [by apply bool_decide_eq_true in Hmark|].
  unfold process_district_row, index. rewrite H1, H2. simpl.
  destruct (find a_tag any_attrs cell1) as [a|]; [|done].
  by destruct (attr_href (node_attrs a)).
Qed.
End row_facts.

(** C9, as amended. The loop of [main] is the traversal of the rows that
    have more than one cell and whose first cell's class attribute is
    exactly the marker class, that is, the list of its classes is
    [['cislo']]; every other row is passed over, also one whose first cell
    carries the marker class next to another class. A row that is visited
    does carry the marker class in its first cell. On each such row the
    row extractor returns the trimmed text of the first anchor of the
    first cell as code, the trimmed text of the second cell as name, and
    the site prefix followed by that anchor's href as URL, when the first
    cell holds an anchor with an href; it raises [AttributeError] when the
    first cell holds no anchor and [KeyError] when the anchor has no
    href. *)
Theorem row_extractor_on_data_rows `{Python} `{Web} :
  (∀ rows D P t,
     main_loop rows D P t = traverse (filter is_data_row rows) D P t)
  ∧ (∀ row, is_data_row row = true
            ↔ (1 < length (find_all td any_attrs row))%nat
              ∧ ∃ cell1,
                  find_all td any_attrs row !! 0%nat = Some cell1
                  ∧ attr_class (node_attrs cell1) = Some [cislo])
  ∧ (∀ row, is_data_row row = true → first_cell_has_marker row = true)
  ∧ (∀ row,
       is_data_row row = true
       → ∃ cell1 cell2,
           find_all td any_attrs row !! 0%nat = Some cell1
           ∧ find_all td any_attrs row !! 1%nat = Some cell2
           ∧ process_district_row row
             = match find a_tag any_attrs cell1 with
               | None => Raise AttributeError
               | Some a =>
                   match attr_href (node_attrs a) with
                   | None => Raise KeyError
                   | Some href =>
                       Ok (strip (text a), strip (text cell2), SITE ++ href)
                   end
               end)
  ∧ (∀ row cell1 cell2 a href,
       is_data_row row = true
       → find_all td any_attrs row !! 0%nat = Some cell1
       → find_all td any_attrs row !! 1%nat = Some cell2
       → find a_tag any_attrs cell1 = Some a
       → attr_href (node_attrs a) = Some href
       → process_district_row row
         = Ok (strip (text a), strip (text cell2), SITE ++ href)).
Proof.
  split; [apply main_loop_traverse|]. split; [|split; [|split]].
  - intros row. rewrite is_data_row_eq. unfold first_cell_marked.
    destruct (find_all td any_attrs row !! 0%nat) as [cell1|].
    + rewrite bool_decide_eq_true. split.
      * intros [Hlen Hclass]. split; [done|]. by exists cell1.
      * intros [Hlen (c & [= <-] & Hclass)]. by split.
    + split; [by intros [_ ?]|]. by intros [_ (c & ? & _)].
  - intros row (c1 & c2 & Hc1 & _ & Hclass & _)%process_data_row.
    unfold first_cell_has_marker, class_is, matches_value.
    rewrite Hc1, Hclass. apply orb_true_iff. left.
    apply bool_decide_eq_true. by left.
  - intros row (c1 & c2 & Hc1 & Hc2 & _ & Heq)%process_data_row.
    by exists c1, c2.
  - intros row cell1 cell2 a href Hrow Hc1 Hc2 Ha Hhref.
    destruct (process_data_row row Hrow) as (c1 & c2 & Hc1' & Hc2' & _ & ->).
    rewrite Hc1 in Hc1'. rewrite Hc2 in Hc2'.
    injection Hc1' as <-. injection Hc2' as <-.
    by rewrite Ha, Hhref.
Qed.

(** C9 as stated fails on two rows whose first cell carries the marker
    class. The first has no second cell: the loop passes it over, where
    the row extractor would have raised [IndexError]. The second has two
    cells and an anchor, and its first cell carries a second class next to
    the marker: the row extractor returns a triple for it, yet the loop
    passes it over, because the class list is not [['cislo']]. *)
Lemma marked_rows_that_are_skipped :
  (first_cell_marked Site.lone_cell_row = true
   ∧ first_cell_has_marker Site.lone_cell_row = true
   ∧ is_data_row Site.lone_cell_row = false
   ∧ @main_loop ascii_python Site.web [Site.lone_cell_row] [] [] []
     = ([], Ok ([], []))
   ∧ @traverse ascii_python Site.web
       (filter first_cell_marked [Site.lone_cell_row]) [] [] []
     = ([], Raise IndexError)
   ∧ @main_loop ascii_python Site.web [Site.lone_cell_row] [] [] []
     ≠ @traverse ascii_python Site.web
         (filter first_cell_marked [Site.lone_cell_row]) [] [] [])
  ∧ (first_cell_has_marker Site.two_class_row = true
     ∧ length (find_all td any_attrs Site.two_class_row) = 2%nat
     ∧ process_district_row Site.two_class_row
       = Ok (str "500011", str "Praha 1", SITE ++ str "ps311?obec=1")
     ∧ is_data_row Site.two_class_row = false
     ∧ @main_loop ascii_python Site.web [Site.two_class_row] [] [] []
       = ([], Ok ([], []))
     ∧ (@traverse ascii_python Site.web
          (filter first_cell_has_marker [Site.two_class_row]) [] [] []).1
       = [Get (SITE ++ str "ps311?obec=1")]
     ∧ @main_loop ascii_python Site.web [Site.two_class_row] [] [] []
       ≠ @traverse ascii_python Site.web
           (filter first_cell_has_marker [Site.two_class_row]) [] [] []).
Proof.
  assert (Hloop1 : @main_loop ascii_python Site.web
                     [Site.lone_cell_row] [] [] []
                   = ([], Ok ([], []))) by (vm_compute; reflexivity).
  assert (Hvisit1 : @traverse ascii_python Site.web
                      (filter first_cell_marked [Site.lone_cell_row]) [] [] []
                    = ([], Raise IndexError)) by (vm_compute; reflexivity).
  assert (Hloop2 : @main_loop ascii_python Site.web
                     [Site.two_class_row] [] [] []
                   = ([], Ok ([], []))) by (vm_compute; reflexivity).
  assert (Hvisit2 : (@traverse ascii_python Site.web
                       (filter first_cell_has_marker [Site.two_class_row])
                       [] [] []).1
                    = [Get (SITE ++ str "ps311?obec=1")])
    by (vm_compute; reflexivity).
  split.
  - split; [vm_compute; reflexivity|]. split; [vm_compute; reflexivity|].
    split; [vm_compute; reflexivity|].
    split; [exact Hloop1|]. split; [exact Hvisit1|].
    rewrite Hloop1, Hvisit1. discriminate.
  - split; [vm_compute; reflexivity|]. split; [vm_compute; reflexivity|].
    split; [vm_compute; reflexivity|]. split; [vm_compute; reflexivity|].
    split; [exact Hloop2|]. split; [exact Hvisit2|].
    rewrite Hloop2. intros Heq. rewrite <- Heq in Hvisit2. discriminate.
Qed.

(** ** C10 and C3: the record of a district and its exported row *)

Section record_facts.
Context `{Python} `{Web} `{Disk}.

Lemma party_votes_cons (p : Z * pystr * pystr)
    (party_list : list (Z * pystr * pystr)) (key : pystr) :
  party_votes (p :: party_list) key
  = match party_votes party_list key with
    | Some votes => Some votes
    | None => if decide (p.1.2 = key) then Some p.2 else None
    end.
Proof.
  unfold party_votes. destruct p as [[c n] v]. simpl.
  destruct (decide (n = key)); rewrite ?last_cons; by destruct (last _).
Qed.

(** Folding the parties in overwrites what the dictionary held under a
    party's name; the last party of a name wins. *)
Lemma fold_parties_lookup (district_data : gmap pystr pystr)
    (party_list : list (Z * pystr * pystr)) (key : pystr) :
  fold_parties district_data party_list !! key
  = match party_votes party_list key with
    | Some votes => Some votes
    | None => district_data !! key
    end.
Proof.
  unfold fold_parties. revert district_data.
  induction party_list as [|[[c n] v] l IH]; intros d; [done|].
  simpl foldl. rewrite IH, party_votes_cons. simpl.
  destruct (party_votes l key); [done|].
  destruct (decide (n = key)) as [->|Hne].
  - by rewrite lookup_insert_eq.
  - by rewrite lookup_insert_ne.
Qed.

Lemma party_votes_Some (party_list : list (Z * pystr * pystr))
    (key votes : pystr) :
  party_votes party_list key = Some votes
  → ∃ code, (code, key, votes) ∈ party_list.
Proof.
  unfold party_votes. intros Hlast.
  assert (votes ∈ omap (λ p : Z * pystr * pystr,
                          let '(_, party_name, votes_count) := p in
                          if decide (party_name = key)
                          then Some votes_count else None) party_list)
    as Hin.
  { by apply last_Some_elem_of. }
  apply list_elem_of_omap in Hin as ([[c n] v] & Hin & Hv).
  destruct (decide (n = key)) as [->|]; [|done].
  injection Hv as ->. by exists c.
Qed.

Lemma party_votes_None (party_list : list (Z * pystr * pystr))
    (key : pystr) :
  party_votes party_list key = None
  ↔ ∀ code votes, (code, key, votes) ∉ party_list.
Proof.
  induction party_list as [|[[c n] v] l IH]; simpl.
  - split; [|done]. intros _ code votes Hin. by apply elem_of_nil in Hin.
  - rewrite party_votes_cons. simpl.
    destruct (party_votes l key) as [v'|] eqn:Hl.
    + split; [done|]. intros Hall.
      apply party_votes_Some in Hl as [c' Hin].
      destruct (Hall c' v'). by right.
    + destruct (decide (n = key)) as [->|Hne].
      * split; [done|]. intros Hall. destruct (Hall c v). by left.
      * split; [|done]. intros _ code votes [[= -> -> ->]|Hin]%elem_of_cons;
          [done|].
        by eapply IH.
Qed.

(** The record of a visit, key by key, in the order of the writes:
    statistics, then parties, then code and location. *)
Lemma visit_record_lookup (v : visit) (key : pystr) :
  visit_record v !! key
  = if decide (key = k_location) then Some (v_name v)
    else if decide (key = k_code) then Some (v_code v)
    else match party_votes (sorted_parties (v_page v)) key with
         | Some votes => Some votes
         | None => extract_district_stats (v_page v) !! key
         end.
Proof.
  unfold visit_record, district_of_page. simpl.
  destruct (decide (key = k_location)) as [->|Hl].
  { by rewrite lookup_insert_eq. }
  rewrite lookup_insert_ne by done.
  destruct (decide (key = k_code)) as [->|Hc].
  { by rewrite lookup_insert_eq. }
  rewrite lookup_insert_ne by done.
  apply fold_parties_lookup.
Qed.

Lemma extract_district_stats_lookup (soup : node) (key : pystr) :
  extract_district_stats soup !! key
  = if decide (key = k_valid)
    then Some (stat_value (find td (headers_is sa6) soup))
    else if decide (key = k_envelopes)
    then Some (stat_value (find td (headers_is sa3) soup))
    else if decide (key = k_registered)
    then Some (stat_value (find td (headers_is sa2) soup))
    else None.
Proof.
  unfold extract_district_stats.
  repeat (case_decide; [subst; by rewrite ?lookup_insert_eq
                       |rewrite lookup_insert_ne by done]).
  apply lookup_empty.
Qed.

Lemma visit_record_fixed (v : visit) (key : pystr) :
  key ∈ fixed_columns → is_Some (visit_record v !! key).
Proof.
  intros Hin. rewrite visit_record_lookup.
  repeat (case_decide; [done|]).
  destruct (party_votes _ key); [done|].
  rewrite extract_district_stats_lookup.
  unfold fixed_columns in Hin.
  rewrite !elem_of_cons, elem_of_nil in Hin.
  repeat (case_decide; [done|]). naive_solver.
Qed.

Lemma party_votes_is_Some (party_list : list (Z * pystr * pystr))
    (code : Z) (key votes : pystr) :
  (code, key, votes) ∈ party_list → is_Some (party_votes party_list key).
Proof.
  intros Hin. destruct (party_votes party_list key) eqn:Hnone; [done|].
  pose proof (proj1 (party_votes_None _ _) Hnone) as Hall.
  by destruct (Hall code votes).
Qed.

(** One step of the loop on a data row that the row extractor and the
    fetch accept. *)
Lemma main_loop_one (row : node) (code name url : pystr) (soup : node)
    (t : list event) :
  is_data_row row = true
  → process_district_row row = Ok (code, name, url)
  → http_get url = Some soup
  → main_loop [row] [] [] t
    = (t ++ [Get url],
       Ok ([visit_record (Visit row code name url soup)],
           code_and_name <$> sorted_parties soup)).
Proof.
  intros Hrow Hproc Hget. simpl main_loop. rewrite Hrow, bind_lift, Hproc.
  unfold fetch_district_data. by rewrite !bind_M, fetch_page_eq, Hget.
Qed.
End record_facts.

(** C10. The record of a district is one dictionary for statistics,
    parties and the two district fields, written in this order: the three
    statistics, then each party's votes under the party's name in code
    order, then [code] and [location]. So under [code] and [location] it
    holds the district's code and name whatever the parties are called,
    and under any other key the votes of the last party of that name when
    there is one, and the statistic otherwise: a party called
    [registered], [envelopes] or [valid] replaces that statistic. This
    holds of every district: whatever the rows and the records collected
    before, a loop that ends well has appended, for each data row in
    order, the record so built from the row's code and name and the page
    behind its link; and the rows a run exports are the rows of these
    records. *)
Theorem record_keys_resolve_by_write_order `{Python} `{Web} `{Disk} :
  (∀ v : visit,
     let record := visit_record v in
     let parties := sorted_parties (v_page v) in
     record !! k_code = Some (v_code v)
     ∧ record !! k_location = Some (v_name v)
     ∧ (∀ key, key ≠ k_code → key ≠ k_location
          → record !! key
            = match party_votes parties key with
              | Some votes => Some votes
              | None => extract_district_stats (v_page v) !! key
              end)
     ∧ (∀ key votes,
          key ∈ [k_registered; k_envelopes; k_valid]
          → party_votes parties key = Some votes
          → record !! key = Some votes)
     ∧ (∀ key header,
          (key, header) ∈ [(k_registered, sa2); (k_envelopes, sa3);
                           (k_valid, sa6)]
          → party_votes parties key = None
          → record !! key
            = Some (stat_value (find td (headers_is header) (v_page v))))
     ∧ (∀ key votes,
          party_votes parties key = Some votes
          → ∃ party_code, (party_code, key, votes) ∈ parties)
     ∧ (∀ party_code key votes,
          (party_code, key, votes) ∈ parties
          → is_Some (party_votes parties key)))
  ∧ (∀ rows D P t t' D' P',
       main_loop rows D P t = (t', Ok (D', P'))
       → ∃ visits : list visit,
           v_row <$> visits = filter is_data_row rows
           ∧ Forall visit_ok visits
           ∧ D' = D ++ (visit_record <$> visits)
           ∧ length D' = (length D + length (filter is_data_row rows))%nat
           ∧ ∀ i v, visits !! i = Some v
                    → D' !! (length D + i)%nat = Some (visit_record v))
  ∧ (∀ args t,
       main args [] = (t, Ok tt)
       → ∃ csv_file soup (visits : list visit) header,
           v_row <$> visits
           = filter is_data_row (find_all tr any_attrs soup)
           ∧ Forall visit_ok visits
           ∧ last t
             = Some (WriteCsv csv_file header
                       (csv_row header <$> (visit_record <$> visits)))).
Proof.
  split; [|split].
  - intros v. cbv zeta.
    assert (Hother : ∀ key, key ≠ k_code → key ≠ k_location
              → visit_record v !! key
                = match party_votes (sorted_parties (v_page v)) key with
                  | Some votes => Some votes
                  | None => extract_district_stats (v_page v) !! key
                  end).
    { intros key Hc Hl. rewrite visit_record_lookup.
      by rewrite !decide_False by done. }
    split; [by rewrite visit_record_lookup|].
    split; [by rewrite visit_record_lookup|].
    split; [exact Hother|]. split; [|split; [|split]].
    + intros key votes Hin Hvotes.
      rewrite !elem_of_cons, elem_of_nil in Hin.
      rewrite Hother, Hvotes; [done|..];
        destruct Hin as [->|[->|[->|[]]]]; done.
    + intros key header Hin Hvotes.
      rewrite !elem_of_cons, elem_of_nil in Hin.
      rewrite Hother, Hvotes;
        destruct Hin as [Heq|[Heq|[Heq|[]]]];
        apply pair_equal_spec in Heq as [-> ->]; try done;
        by rewrite extract_district_stats_lookup.
    + intros key votes. apply party_votes_Some.
    + intros party_code key votes. apply party_votes_is_Some.
  - intros rows D P t t' D' P'. rewrite main_loop_traverse.
    intros (visits & Hrows & Hok & -> & _ & _)%traverse_Ok.
    exists visits. split; [done|]. split; [done|]. split; [done|]. split.
    + by rewrite length_app, !length_fmap, <- Hrows, length_fmap.
    + intros i v Hv. rewrite lookup_app_r by lia.
      replace (length D + i - length D)%nat with i by lia.
      by rewrite list_lookup_fmap, Hv.
  - intros args t
      (input_value & csv_file & t2 & url & soup & visits & _ & _ & _ & Hrows
       & Hok & _ & Hlast)%main_Ok.
    cbv zeta in Hlast. destruct Hlast as [_ ->].
    eexists csv_file, soup, visits, _.
    split; [done|]. split; [done|]. apply last_snoc.
Qed.

(** C3, as amended. In the table a run exports, every row has one cell
    per column, and the cell is the record's value under the column name,
    or ["0"] when the record has none. So a party column of the global
    party order without an entry in a district's record is ["0"] there.
    The five fixed columns have an entry in every record, so their cells
    are never the fill value; and the cell of a statistic whose header
    reference is absent from the district's page is ["N/A"], provided no
    party on that page bears the statistic's name. *)
Theorem exported_cells `{Python} `{Web} `{Disk}
    (args : list pystr) (t : list event) :
  main args [] = (t, Ok tt)
  → ∃ csv_file (visits : list visit) t1 party_names,
      let csv_columns := fixed_columns ++ party_names in
      t = t1 ++ [WriteCsv csv_file csv_columns
                   (csv_row csv_columns <$> (visit_record <$> visits))]
      ∧ party_names = ordered_party_names (mjoin (visit_pairs <$> visits))
      ∧ Forall visit_ok visits
      ∧ ∀ v, v ∈ visits →
          let exported := csv_row csv_columns (visit_record v) in
          length exported = length csv_columns
          ∧ (∀ i col, csv_columns !! i = Some col
               → exported !! i = Some (default zero (visit_record v !! col)))
          ∧ (∀ i party, csv_columns !! i = Some party
               → party ∈ party_names
               → visit_record v !! party = None
               → exported !! i = Some zero)
          ∧ (∀ i col, fixed_columns !! i = Some col
               → is_Some (visit_record v !! col)
                 ∧ exported !! i = visit_record v !! col)
          ∧ (∀ i key header,
               fixed_columns !! i = Some key
               → (key, header) ∈ [(k_registered, sa2); (k_envelopes, sa3);
                                  (k_valid, sa6)]
               → find td (headers_is header) (v_page v) = None
               → (∀ code votes,
                    (code, key, votes) ∉ sorted_parties (v_page v))
               → exported !! i = Some NA).
Proof.
  intros Hmain.
  apply main_Ok in Hmain
    as (input_value & csv_file & t2 & url & soup & visits & _ & _ & _ & _
        & Hok & _ & Hlast).
  cbv zeta in Hlast. destruct Hlast as [_ ->].
  eexists csv_file, visits, _, _. cbv zeta.
  split; [done|]. split; [done|]. split; [done|].
  intros v _. set (party_names := ordered_party_names _).
  assert (Hcell : ∀ i col, (fixed_columns ++ party_names) !! i = Some col
            → csv_row (fixed_columns ++ party_names) (visit_record v) !! i
              = Some (default zero (visit_record v !! col))).
  { intros i col Hcol. unfold csv_row. by rewrite list_lookup_fmap, Hcol. }
  assert (Hfixed : ∀ i col, fixed_columns !! i = Some col
            → is_Some (visit_record v !! col)
              ∧ csv_row (fixed_columns ++ party_names) (visit_record v) !! i
                = visit_record v !! col).
  { intros i col Hcol.
    assert (is_Some (visit_record v !! col)) as [value Hvalue].
    { apply visit_record_fixed. by eapply list_elem_of_lookup_2. }
    split; [by rewrite Hvalue|].
    rewrite (Hcell i col), Hvalue; [done|].
    by apply lookup_app_l_Some. }
  split; [unfold csv_row; by rewrite length_fmap|].
  split; [exact Hcell|]. split; [|split; [exact Hfixed|]].
  - intros i party Hcol _ Hnone. by rewrite (Hcell i party), Hnone.
  - intros i key header Hcol Hin Hfind Hparty.
    destruct (Hfixed i key Hcol) as [_ ->].
    apply party_votes_None in Hparty.
    rewrite visit_record_lookup, Hparty.
    rewrite !elem_of_cons, elem_of_nil in Hin.
    destruct Hin as [Heq|[Heq|[Heq|[]]]];
      apply pair_equal_spec in Heq as [-> ->];
      rewrite !decide_False by done;
      by rewrite extract_district_stats_lookup, Hfind.
Qed.

(** C3 as stated fails: the page of this district has no cell for the
    registered voters and lists a party named [registered] with 0 votes;
    the fixed column [registered] of the exported row holds ["0"], not
    ["N/A"]. *)
Lemma absent_statistic_exported_as_zero :
  find td (headers_is sa2) Site.results_3 = None
  ∧ Site.run ["prog"; "https://www.volby.cz/three"; "out.csv"]
    = ([Head (str "https://www.volby.cz/three");
        Get (str "https://www.volby.cz/three");
        Get (SITE ++ str "ps311?obec=3");
        WriteCsv (str "out.csv")
          [k_code; k_location; k_registered; k_envelopes; k_valid;
           k_registered]
          [[str "500033"; str "Praha 3"; zero; NA; NA; zero]]],
       Ok tt)
  ∧ zero ≠ NA.
Proof.
  split; [vm_compute; reflexivity|].
  split; [vm_compute; reflexivity|discriminate].
Qed.

(** ** The statements at the concrete site *)

Lemma global_party_order_of_run_witness :
  let args := str <$> ["prog"; "praha"; "out.csv"] in
  let t := (Site.run ["prog"; "praha"; "out.csv"]).1 in
  @main ascii_python Site.web Site.disk args [] = (t, Ok tt)
  ∧ ∃ csv_file soup (visits : list visit),
      let observed := mjoin (@visit_pairs ascii_python <$> visits) in
      let header := fixed_columns ++ ordered_party_names observed in
      v_row <$> visits
      = filter is_data_row (find_all tr any_attrs soup)
      ∧ last t
        = Some (WriteCsv csv_file header
                  (csv_row header
                     <$> (@visit_record ascii_python <$> visits)))
      ∧ length (ordered_party_names observed)
        = size (list_to_set (observed.*2) : gset pystr).
Proof.
  cbv zeta.
  assert (Hrun : @main ascii_python Site.web Site.disk
                   (str <$> ["prog"; "praha"; "out.csv"]) []
                 = ((Site.run ["prog"; "praha"; "out.csv"]).1, Ok tt))
    by (vm_compute; reflexivity).
  split; [exact Hrun|].
  destruct (@global_party_order_of_run ascii_python Site.web Site.disk _ _ Hrun)
    as (input_value & csv_file & t2 & url & soup & visits & _ & _ & _
        & Hrows & _ & _ & Ht & _ & _ & _ & _ & _ & _ & _ & _ & Hlen & _).
  exists csv_file, soup, visits. split; [exact Hrows|].
  split; [|exact Hlen].
  rewrite Ht. apply last_snoc.
Defined.

Lemma party_order_independent_of_district_order_witness :
  let district1 := [(1, str "A"); (2, str "B")] in
  let district2 := [(2, str "B"); (3, str "C")] in
  [district1; district2] ≡ₚ [district2; district1]
  ∧ code_determines_name (accumulate [district1; district2])
  ∧ ordered_party_names (accumulate [district1; district2])
    = ordered_party_names (accumulate [district2; district1]).
Proof.
  cbv zeta.
  assert (Hfun : code_determines_name
                   (accumulate [[(1, str "A"); (2, str "B")];
                                [(2, str "B"); (3, str "C")]])).
  { intros c n1 n2 H1 H2. unfold accumulate in H1, H2. simpl in H1, H2.
    rewrite !elem_of_cons, elem_of_nil in H1.
    rewrite !elem_of_cons, elem_of_nil in H2.
    naive_solver. }
  split; [apply Permutation_swap|]. split; [exact Hfun|].
  apply party_order_independent_of_district_order;
    [apply Permutation_swap|exact Hfun].
Defined.

Lemma exported_cells_witness :
  let args := str <$> ["prog"; "praha"; "out.csv"] in
  let t := (Site.run ["prog"; "praha"; "out.csv"]).1 in
  @main ascii_python Site.web Site.disk args [] = (t, Ok tt)
  ∧ ∃ csv_file (visits : list visit) t1 party_names,
      t = t1 ++ [WriteCsv csv_file (fixed_columns ++ party_names)
                   (csv_row (fixed_columns ++ party_names)
                      <$> (@visit_record ascii_python <$> visits))]
      ∧ Forall (@visit_ok Site.web) visits.
Proof.
  cbv zeta.
  assert (Hrun : @main ascii_python Site.web Site.disk
                   (str <$> ["prog"; "praha"; "out.csv"]) []
                 = ((Site.run ["prog"; "praha"; "out.csv"]).1, Ok tt))
    by (vm_compute; reflexivity).
  split; [exact Hrun|].
  destruct (@exported_cells ascii_python Site.web Site.disk _ _ Hrun)
    as (csv_file & visits & t1 & party_names & Ht & _ & Hok & _).
  exists csv_file, visits, t1, party_names. split; assumption.
Defined.

Lemma party_triple_emitted_iff_witness :
  @extract_party_data ascii_python
    (Site.party_row ["t1sa1"; "t1sb1"] "2" "Party B" "100")
  = Some (2, str "Party B", str "100").
Proof.
  apply (proj1 (@party_triple_emitted_iff ascii_python _)).
  exists (Site.cell ["cislo"] ["t1sa1"; "t1sb1"] [Site.txt "2"]),
         (Site.cell ["overflow_name"] [] [Site.txt "Party B"]),
         (Site.cell ["cislo"] [] [Site.txt "100"]).
  repeat split; vm_compute; reflexivity.
Defined.

Lemma numeric_name_is_invalid_input_witness :
  ascii_isdigit (str "12345") = true
  ∧ Site.run ["prog"; "12345"; "out.csv"] = ([], Exit InvalidInput).
Proof.
  assert (Hdigit : ascii_isdigit (str "12345") = true) by reflexivity.
  split; [exact Hdigit|].
  destruct (@numeric_name_is_invalid_input ascii_python Site.web Site.disk
              (str "12345") Hdigit) as [_ Hmain].
  apply (Hmain _ (str "out.csv")); vm_compute; reflexivity.
Defined.

Lemma district_locator_first_match_witness :
  ascii_isdigit (str "praha") = false
  ∧ @get_url_from_name ascii_python Site.web (str "praha") []
    = ([Get BASE_URL], Ok (SITE ++ str "ps32?xnumnuts=1100")).
Proof.
  assert (Hdigit : ascii_isdigit (str "praha") = false) by reflexivity.
  split; [exact Hdigit|].
  destruct (@district_locator_first_match ascii_python Site.web
              (str "praha") [] Hdigit) as (r & Hrun & _ & Hpage).
  destruct (Hpage Site.index_page eq_refl) as (Hr & _ & _).
  rewrite Hrun, Hr. vm_compute. reflexivity.
Defined.

Lemma district_stats_never_fail_witness :
  extract_district_stats Site.results_2 !! k_registered = Some NA
  ∧ extract_district_stats Site.results_1 !! k_registered = Some (str "1000").
Proof.
  assert (Hin : (k_registered, sa2)
                ∈ [(k_registered, sa2); (k_envelopes, sa3); (k_valid, sa6)])
    by left.
  pose proof (proj1 (proj2 (district_stats_never_fail Site.results_2))
                _ _ Hin) as H2.
  pose proof (proj1 (proj2 (district_stats_never_fail Site.results_1))
                _ _ Hin) as H1.
  assert (Hnone : find td (headers_is sa2) Site.results_2 = None)
    by (vm_compute; reflexivity).
  assert (Hsome : find td (headers_is sa2) Site.results_1
                  = Some (Site.stat_cell "sa2" (str "1" ++ [nbsp] ++ str "000")))
    by (vm_compute; reflexivity).
  rewrite Hnone in H2. rewrite Hsome in H1.
  split; [exact (proj2 H2)|]. rewrite (proj2 H1). vm_compute. reflexivity.
Defined.

Lemma empty_traversal_aborts_witness :
  Site.run ["prog"; "https://www.volby.cz/empty"; "out.csv"]
  = ([Head (str "https://www.volby.cz/empty");
      Get (str "https://www.volby.cz/empty")], Exit EmptyResult)
  ∧ nothing_written [Head (str "https://www.volby.cz/empty");
                     Get (str "https://www.volby.cz/empty")].
Proof.
  pose proof (@empty_traversal_aborts ascii_python Site.web Site.disk
                (str <$> ["prog"; "https://www.volby.cz/empty"; "out.csv"])
                (str "https://www.volby.cz/empty") (str "out.csv")
                (str "https://www.volby.cz/empty") Site.empty_district_page
                [Head (str "https://www.volby.cz/empty")]
                [Head (str "https://www.volby.cz/empty");
                 Get (str "https://www.volby.cz/empty")] []) as Hrun.
  destruct Hrun as (Hmain & Hnothing & _); [vm_compute; reflexivity..|].
  split; [exact Hmain|exact Hnothing].
Defined.

Lemma row_extractor_on_data_rows_witness :
  let row :=
    Site.row [Site.cell ["cislo"] [] [Site.link "ps311?obec=2" " 500022 "];
              Site.cell [] [] [Site.txt " Praha 2"]] in
  is_data_row row = true
  ∧ process_district_row row
    = Ok (str "500022", str "Praha 2", SITE ++ str "ps311?obec=2").
Proof.
  cbv zeta. split; [vm_compute; reflexivity|].
  destruct (@row_extractor_on_data_rows ascii_python Site.web)
    as (_ & _ & _ & _ & Htriple).
  rewrite (Htriple
             _ (Site.cell ["cislo"] [] [Site.link "ps311?obec=2" " 500022 "])
             (Site.cell [] [] [Site.txt " Praha 2"])
             (Site.link "ps311?obec=2" " 500022 ")
             (str "ps311?obec=2"));
    vm_compute; reflexivity.
Defined.

Lemma record_keys_resolve_by_write_order_witness :
  let row :=
    Site.row [Site.cell ["cislo"] [] [Site.link "ps311?obec=3" "500033"];
              Site.cell [] [] [Site.txt "Praha 3"]] in
  let v := Visit row (str "500033") (str "Praha 3")
             (SITE ++ str "ps311?obec=3") Site.results_3 in
  let rows := find_all tr any_attrs Site.district_page_3 in
  @main_loop ascii_python Site.web rows [] [] []
  = ([Get (SITE ++ str "ps311?obec=3")],
     Ok ([@visit_record ascii_python v], @visit_pairs ascii_python v))
  ∧ (∃ visits : list visit,
       v_row <$> visits = filter is_data_row rows
       ∧ [@visit_record ascii_python v]
         = [] ++ (@visit_record ascii_python <$> visits))
  ∧ @visit_record ascii_python v !! k_code = Some (str "500033")
  ∧ @visit_record ascii_python v !! k_location = Some (str "Praha 3")
  ∧ @visit_record ascii_python v !! k_registered = Some zero.
Proof.
  cbv zeta.
  destruct (@record_keys_resolve_by_write_order ascii_python Site.web
              Site.disk) as (Hrecord & Hloop & _).
  assert (Hrun :
    @main_loop ascii_python Site.web
      (find_all tr any_attrs Site.district_page_3) [] [] []
    = ([Get (SITE ++ str "ps311?obec=3")],
       Ok ([@visit_record ascii_python
              (Visit (Site.row [Site.cell ["cislo"] []
                                  [Site.link "ps311?obec=3" "500033"];
                                Site.cell [] [] [Site.txt "Praha 3"]])
                     (str "500033") (str "Praha 3")
                     (SITE ++ str "ps311?obec=3") Site.results_3)],
           @visit_pairs ascii_python
             (Visit (Site.row [Site.cell ["cislo"] []
                                 [Site.link "ps311?obec=3" "500033"];
                               Site.cell [] [] [Site.txt "Praha 3"]])
                    (str "500033") (str "Praha 3")
                    (SITE ++ str "ps311?obec=3") Site.results_3))))
    by (vm_compute; reflexivity).
  split; [exact Hrun|]. split.
  - destruct (Hloop _ _ _ _ _ _ _ Hrun) as (visits & Hrows & _ & HD & _).
    by exists visits.
  - destruct (Hrecord
                (Visit (Site.row [Site.cell ["cislo"] []
                                    [Site.link "ps311?obec=3" "500033"];
                                  Site.cell [] [] [Site.txt "Praha 3"]])
                       (str "500033") (str "Praha 3")
                       (SITE ++ str "ps311?obec=3") Site.results_3))
      as (Hcode & Hlocation & _ & Hparty & _).
    split; [exact Hcode|]. split; [exact Hlocation|].
    apply Hparty; [left|vm_compute; reflexivity].
Defined.


(** * Further properties of the program *)

(** ** The string tests of [validate_arguments] *)

Lemma is_prefix_spec (p s : pystr) :
  is_prefix p s = true ↔ ∃ rest, s = p ++ rest.
Proof.
  revert s. induction p as [|a p IH]; intros s; simpl.
  - split; [by exists s|done].
  - destruct s as [|b s].
    + split; [done|]. by intros (rest & ?).
    + rewrite andb_true_iff, bool_decide_eq_true, IH. split.
      * intros [-> [rest ->]]. by exists rest.
      * intros (rest & [= -> ->]). split; [done|]. by exists rest.
Qed.

Lemma contains_spec (needle s : pystr) :
  contains needle s = true ↔ ∃ l1 l2, s = l1 ++ needle ++ l2.
Proof.
  induction s as [|c s IH].
  - simpl. rewrite orb_false_r, is_prefix_spec. split.
    + intros [rest Hs]. by exists [], rest.
    + intros (l1 & l2 & Hs). destruct l1; [by exists l2|done].
  - simpl. rewrite orb_true_iff, is_prefix_spec, IH. split.
    + intros [[rest ->]|(l1 & l2 & ->)].
      * by exists [], rest.
      * by exists (c :: l1), l2.
    + intros ([|d l1] & l2 & Hs).
      * left. by exists l2.
      * right. injection Hs as -> ->. by exists l1, l2.
Qed.

Lemma endswith_spec (suffix s : pystr) :
  endswith suffix s = true ↔ ∃ stem, s = stem ++ suffix.
Proof.
  unfold endswith. rewrite is_prefix_spec. split.
  - intros [rest Hs]. exists (reverse rest).
    apply (inj reverse). by rewrite reverse_app, reverse_involutive.
  - intros [stem ->]. exists (reverse stem). by rewrite reverse_app.
Qed.

Section argument_facts.
Context `{Python} `{Web} `{Disk}.

Lemma validate_arguments_eq (args : list pystr) (t : list event) :
  validate_arguments args t
  = (t, match args with
        | [program; input_value; csv_file] =>
            if bool_decide (input_value = []) then Exit UsageError
            else if contains volby_cz input_value
                    && negb (is_prefix http input_value)
            then Exit UsageError
            else if negb (endswith dot_csv (str_lower csv_file))
            then Exit UsageError
            else Ok (input_value, csv_file)
        | _ => Exit UsageError
        end).
Proof.
  unfold validate_arguments.
  destruct args as [|a0 [|a1 [|a2 [|a3 args]]]]; try done.
  case_bool_decide as Hlen; [simpl in Hlen; lia|].
  cbn -[contains is_prefix endswith].
  unfold mbind, M_mbind, M_bind_def, sys_exit, lift, mret, M_ret.
  destruct (bool_decide (a1 = [])); [done|].
  destruct (contains volby_cz a1 && negb (is_prefix http a1)); [done|].
  by destruct (negb (endswith dot_csv (str_lower a2))).
Qed.

Lemma validate_arguments_cases (args : list pystr) (t : list event) :
  (∃ input_value csv_file,
     validate_arguments args t = (t, Ok (input_value, csv_file)))
  ∨ validate_arguments args t = (t, Exit UsageError).
Proof.
  rewrite validate_arguments_eq.
  destruct args as [|a0 [|a1 [|a2 [|a3 args]]]]; try by right.
  destruct (bool_decide (a1 = [])); [by right|].
  destruct (contains volby_cz a1 && negb (is_prefix http a1)); [by right|].
  destruct (negb (endswith dot_csv (str_lower a2))); [by right|].
  left. by exists a1, a2.
Qed.
End argument_facts.

(** X1. [validate_arguments] asks for the length before it indexes, so it
    never raises and never touches the network. It lets through exactly
    the lists of three arguments whose second is not empty and starts with
    [http] if it contains [volby.cz] anywhere, and whose third ends in
    [.csv] whatever its case; every other list ends the run with the usage
    exit and an empty trace. *)
Theorem validate_arguments_accepts `{Python} `{Web} `{Disk}
    (args : list pystr) (t : list event) :
  (∀ input_value csv_file,
     validate_arguments args t = (t, Ok (input_value, csv_file))
     ↔ accepted_arguments args input_value csv_file)
  ∧ ((∀ input_value csv_file,
        ¬ accepted_arguments args input_value csv_file)
     → validate_arguments args t = (t, Exit UsageError)
       ∧ main args [] = ([], Exit UsageError))
  ∧ (∀ t' e, validate_arguments args t ≠ (t', Raise e)).
Proof.
  assert (Hiff' : ∀ t input_value csv_file,
     validate_arguments args t = (t, Ok (input_value, csv_file))
     ↔ accepted_arguments args input_value csv_file).
  { clear t. intros t input_value csv_file. rewrite validate_arguments_eq.
    unfold accepted_arguments.
    destruct args as [|a0 [|a1 [|a2 [|a3 args]]]];
      try (split; [done|by intros [[p ?] _]]).
    case_bool_decide as Hempty.
    { split; [done|]. intros ([p [= _ -> _]] & Hne & _). done. }
    destruct (contains volby_cz a1 && negb (is_prefix http a1)) eqn:Hsite.
    { split; [done|]. intros ([p [= _ -> _]] & _ & Hhttp & _).
      apply andb_true_iff in Hsite as [Hc Hp].
      apply (contains_spec volby_cz input_value), Hhttp,
        (is_prefix_spec http input_value) in Hc.
      by rewrite Hc in Hp. }
    destruct (endswith dot_csv (str_lower a2)) eqn:Hcsv; simpl.
    - split.
      + intros [= <- <-]. split; [by exists a0|]. split; [done|].
        split; [|by apply (endswith_spec dot_csv)].
        intros Hc. apply (is_prefix_spec http a1).
        assert (contains volby_cz a1 = true) as Hc'
          by (apply (contains_spec volby_cz a1); exact Hc).
        rewrite Hc' in Hsite. by destruct (is_prefix http a1).
      + by intros ([p [= _ -> ->]] & _).
    - split; [done|]. intros ([p [= _ _ ->]] & _ & _ & Hs).
      apply (endswith_spec dot_csv) in Hs. by rewrite Hs in Hcsv. }
  pose proof (Hiff' t) as Hiff.
  split; [exact Hiff|]. split.
  - intros Hnone.
    destruct (validate_arguments_cases args t) as [(i & c & Hv)|Hexit].
    { by apply Hiff, Hnone in Hv. }
    split; [done|].
    destruct (validate_arguments_cases args []) as [(i & c & Hv)|Hexit'].
    { apply (proj1 (Hiff' [] i c)), Hnone in Hv. done. }
    unfold main. by rewrite bind_M, Hexit'.
  - intros t' e Hraise.
    destruct (validate_arguments_cases args t) as [(i & c & Hv)|Hexit];
      congruence.
Qed.

(** ** The run, step by step *)

Section run_steps.
Context `{Python} `{Web} `{Disk}.

Lemma validate_url_eq (url : pystr) (t : list event) :
  validate_url url t
  = (t ++ [Head url], if http_head url then Ok tt else Exit Unreachable).
Proof.
  unfold validate_url. rewrite bind_emit. by destruct (http_head url).
Qed.

Lemma district_url_eq (input_value : pystr) (t : list event) :
  district_url input_value t
  = if contains volby_cz input_value
    then (t ++ [Head input_value],
          if http_head input_value then Ok input_value
          else Exit Unreachable)
    else get_url_from_name input_value t.
Proof.
  unfold district_url. destruct (contains volby_cz input_value); [|done].
  rewrite bind_M, validate_url_eq. by destruct (http_head input_value).
Qed.

Lemma main_eq (args : list pystr) :
  main args []
  = match validate_arguments args [] with
    | (_, Ok (input_value, csv_file)) =>
        match district_url input_value [] with
        | (t, Ok url) =>
            match http_get url with
            | Some soup =>
                finish csv_file
                  (traverse (filter is_data_row (find_all tr any_attrs soup))
                     [] [] (t ++ [Get url]))
            | None => (t ++ [Get url], Exit FetchError)
            end
        | (t, Exit r) => (t, Exit r)
        | (t, Raise e) => (t, Raise e)
        end
    | (_, Exit r) => ([], Exit r)
    | (_, Raise e) => ([], Raise e)
    end.
Proof.
  unfold main. rewrite bind_M.
  destruct (validate_arguments args []) as [t0 r0] eqn:Hargs.
  apply validate_arguments_trace in Hargs as ->.
  destruct r0 as [[input_value csv_file]| |]; [|done..].
  rewrite bind_M. destruct (district_url input_value []) as [t r].
  destruct r as [url| |]; [|done..].
  rewrite bind_M, fetch_page_eq.
  destruct (http_get url) as [soup|]; [|done].
  rewrite bind_M, main_loop_traverse. unfold finish.
  destruct (traverse _ [] [] _) as [t' [[D P]| |]]; [|done..].
  case_bool_decide; [done|]. unfold write_to_csv. cbv zeta.
  by destruct (disk_failure csv_file _) as [[|n]|].
Qed.

Lemma traverse_app (rows1 rows2 : list node) D P (t : list event) :
  traverse (rows1 ++ rows2) D P t
  = match traverse rows1 D P t with
    | (t', Ok (D', P')) => traverse rows2 D' P' t'
    | (t', Exit r) => (t', Exit r)
    | (t', Raise e) => (t', Raise e)
    end.
Proof.
  revert D P t. induction rows1 as [|row rows1 IH]; intros D P t; [done|].
  simpl. rewrite !bind_lift.
  destruct (process_district_row row) as [[[c n] u]| |]; [|done..].
  rewrite !bind_M, fetch_page_eq.
  destruct (http_get u) as [soup|]; [|done]. apply IH.
Qed.

Lemma process_district_row_site (row : node) (code name url : pystr) :
  process_district_row row = Ok (code, name, url) → under_site url.
Proof.
  unfold process_district_row, index.
  destruct (find_all td any_attrs row !! 0%nat) as [cell0|]; [|done].
  simpl. destruct (find a_tag any_attrs cell0) as [a|]; [|done].
  destruct (find_all td any_attrs row !! 1%nat) as [cell1|]; [|done].
  simpl. destruct (attr_href (node_attrs a)) as [href|]; [|done].
  intros [= _ _ <-]. by exists href.
Qed.


(** Whatever its result, the traversal requests only pages under the
    site. *)
Lemma traverse_requests (selected : list node) D P (t t' : list event) r :
  traverse selected D P t = (t', r)
  → ∃ urls, t' = t ++ (Get <$> urls) ∧ Forall under_site urls.
Proof.
  revert D P t. induction selected as [|row rest IH]; intros D P t.
  - intros [= <- _]. exists []. by rewrite app_nil_r.
  - simpl traverse. rewrite bind_lift.
    destruct (process_district_row row) as [[[c n] u]| |] eqn:Hrow;
      [|intros [= <- _]; exists []; by rewrite app_nil_r..].
    apply process_district_row_site in Hrow.
    rewrite bind_M, fetch_page_eq.
    destruct (http_get u) as [soup|].
    + cbv zeta. intros (urls & -> & Hurls)%IH. exists (u :: urls).
      split; [by rewrite <- app_assoc|by constructor].
    + intros [= <- _]. exists [u]. split; [done|by repeat constructor].
Qed.

(** An exception of the traversal is one the row extractor raised on a
    selected row. *)
Lemma traverse_Raise (selected : list node) D P (t t' : list event) e :
  traverse selected D P t = (t', Raise e)
  → ∃ row, row ∈ selected ∧ process_district_row row = Raise e.
Proof.
  revert D P t. induction selected as [|row rest IH]; intros D P t; [done|].
  simpl traverse. rewrite bind_lift.
  destruct (process_district_row row) as [[[c n] u]| |] eqn:Hrow.
  - rewrite bind_M, fetch_page_eq.
    destruct (http_get u) as [soup|]; [|done].
    cbv zeta. intros (row' & Hin & Hraise)%IH. exists row'.
    split; [by right|done].
  - done.
  - intros [= _ <-]. exists row. split; [left|done].
Qed.

Lemma url_of_matching_row (district_name : pystr) (row : node) :
  row_matches district_name row = true
  → (∃ href, url_of_row row = Ok (SITE ++ href))
    ∨ url_of_row row = Raise TypeError
    ∨ url_of_row row = Raise KeyError.
Proof.
  unfold row_matches. intros [Hlen _]%andb_true_iff.
  apply bool_decide_eq_true in Hlen.
  destruct (lookup_lt_is_Some_2 (find_all td any_attrs row) 3)
    as [cell4 Hcell]; [lia|].
  unfold url_of_row, index, anchor_href. rewrite Hcell. simpl.
  destruct (find a_tag any_attrs cell4) as [a|]; [|by right; left].
  destruct (attr_href (node_attrs a)) as [href|]; [|by right; right].
  left. by exists href.
Qed.

Lemma locate_cases (district_name : pystr) (soup : node) :
  (∃ href, locate district_name soup = Ok (SITE ++ href))
  ∨ locate district_name soup = Exit NotFound
  ∨ locate district_name soup = Raise TypeError
  ∨ locate district_name soup = Raise KeyError.
Proof.
  unfold locate.
  destruct (head _) as [row|] eqn:Hhead; [|by right; left].
  apply head_Some_elem_of, list_elem_of_filter in Hhead as [Hm _].
  apply Is_true_true in Hm.
  destruct (url_of_matching_row _ _ Hm) as [?|[?|?]]; auto.
Qed.

(** The URL step: what it requests, and what it can end in. *)
Lemma district_url_cases (input_value : pystr) (t : list event) r :
  district_url input_value [] = (t, r)
  → (t = [] ∨ t = [Head input_value] ∨ t = [Get BASE_URL])
    ∧ (∀ e, r = Raise e → e = TypeError ∨ e = KeyError)
    ∧ (∀ url, r = Ok url → url = input_value ∨ under_site url).
Proof.
  rewrite district_url_eq. destruct (contains volby_cz input_value).
  - intros [= <- <-]. split; [by right; left|].
    split; [by destruct (http_head input_value)|].
    intros url. destruct (http_head input_value); [|done].
    intros [= <-]. by left.
  - rewrite get_url_from_name_eq. destruct (str_isdigit input_value).
    { intros [= <- <-]. split; [by left|]. done. }
    intros [= <- <-]. split; [by right; right|].
    destruct (http_get BASE_URL) as [soup|]; [|done].
    destruct (locate_cases input_value soup)
      as [[href Hl]|[Hl|[Hl|Hl]]]; rewrite Hl; split; try done.
    + intros url [= <-]. right. by exists href.
    + intros e [= <-]. by left.
    + intros e [= <-]. by right.
Qed.


End run_steps.

Lemma requested_app (t1 t2 : list event) :
  requested (t1 ++ t2) = requested t1 ++ requested t2.
Proof. apply omap_app. Qed.

Lemma probed_app (t1 t2 : list event) :
  probed (t1 ++ t2) = probed t1 ++ probed t2.
Proof. apply omap_app. Qed.

Lemma requested_gets (urls : list pystr) : requested (Get <$> urls) = urls.
Proof.
  induction urls as [|u urls IH]; [done|].
  rewrite fmap_cons. change (requested (Get u :: (Get <$> urls)))
    with (u :: requested (Get <$> urls)). by rewrite IH.
Qed.

Lemma probed_gets (urls : list pystr) : probed (Get <$> urls) = [].
Proof. induction urls as [|u urls IH]; [done|exact IH]. Qed.

Lemma finish_trace `{Disk} (csv_file : pystr)
    (loop : list event
            * result (list (gmap pystr pystr) * list (Z * pystr))) :
  ∃ w, (finish csv_file loop).1 = loop.1 ++ w
       ∧ requested w = [] ∧ probed w = [].
Proof.
  destruct loop as [t [[D P]| |]]; simpl.
  - case_bool_decide; simpl.
    + exists []. by rewrite app_nil_r.
    + destruct (disk_failure csv_file _) as [[|n]|]; simpl.
      * exists []. by rewrite app_nil_r.
      * by eexists [_].
      * by eexists [_].
  - exists []. by rewrite app_nil_r.
  - exists []. by rewrite app_nil_r.
Qed.

Lemma base_url_under_site : under_site BASE_URL.
Proof. by exists (str "ps3?xjazyk=CZ"). Qed.

(** ** X2: a URL as input *)

(** X2. When the first argument contains [volby.cz] the district locator
    is not used: the run probes that URL with one HEAD request before
    anything else. If the probe fails the run exits as unreachable and no
    page is requested; otherwise the page fetched next is the URL as it
    was typed. *)
Theorem url_input_is_probed_first `{Python} `{Web} `{Disk}
    (args : list pystr) (input_value csv_file : pystr) :
  validate_arguments args [] = ([], Ok (input_value, csv_file))
  → contains volby_cz input_value = true
  → ∃ t r,
      main args [] = (Head input_value :: t, r)
      ∧ probed (Head input_value :: t) = [input_value]
      ∧ (http_head input_value = false
         → t = [] ∧ r = Exit Unreachable)
      ∧ (http_head input_value = true
         → ∃ t', t = Get input_value :: t'
                 ∧ (http_get input_value = None
                    → t' = [] ∧ r = Exit FetchError)).
Proof.
  intros Hargs Hsite. rewrite main_eq, Hargs, district_url_eq, Hsite.
  destruct (http_head input_value).
  - destruct (http_get input_value) as [soup|].
    + destruct (traverse _ [] [] _) as [t r] eqn:Hloop.
      apply traverse_requests in Hloop as (urls & -> & _).
      destruct (finish_trace csv_file
                  ((([] ++ [Head input_value]) ++ [Get input_value])
                     ++ (Get <$> urls), r)) as (w & Hw & _ & Hp).
      destruct (finish csv_file _) as [tf rf]. simpl in Hw. subst tf.
      exists (Get input_value :: (Get <$> urls) ++ w), rf.
      split; [done|]. split.
      { simpl. by rewrite probed_app, probed_gets, Hp. }
      split; [done|]. intros _. eexists. by split.
    + eexists _, _. split; [done|]. split; [done|]. split; [done|].
      intros _. by exists [].
  - eexists _, _. split; [done|]. split; [done|]. by split.
Qed.

(** ** X3: a file is the last thing a run does *)


(** ** X4: the first failure ends the traversal *)

(** X4. The traversal stops at the first data row that fails. If the
    page behind its link cannot be fetched the loop ends in [FetchError]
    right after that request; if the row extractor raises, the loop ends
    in that exception without a request for the row. In both cases the
    rows after it are not visited and the records collected so far are
    dropped. *)
Theorem first_failure_ends_traversal `{Python} `{Web}
    (before after : list node) (row : node) (visits : list visit)
    (t : list event) :
  v_row <$> visits = filter is_data_row before
  → Forall visit_ok visits
  → is_data_row row = true
  → (∀ code name url,
       process_district_row row = Ok (code, name, url)
       → http_get url = None
       → main_loop (before ++ row :: after) [] [] t
         = (t ++ (Get ∘ v_url <$> visits) ++ [Get url], Exit FetchError))
    ∧ (∀ e, process_district_row row = Raise e
            → main_loop (before ++ row :: after) [] [] t
              = (t ++ (Get ∘ v_url <$> visits), Raise e)).
Proof.
  intros Hrows Hok Hrow.
  assert (Hprefix : traverse (filter is_data_row before) [] [] t
                    = (t ++ (Get ∘ v_url <$> visits),
                       Ok ([] ++ (visit_record <$> visits),
                           [] ++ mjoin (visit_pairs <$> visits)))).
  { apply traverse_Ok. by exists visits. }
  assert (Hsplit : filter is_data_row (before ++ row :: after)
                   = filter is_data_row before
                     ++ row :: filter is_data_row after).
  { rewrite filter_app, filter_cons_True; [done|]. by rewrite Hrow. }
  split.
  - intros code name url Hproc Hget.
    rewrite main_loop_traverse, Hsplit, traverse_app, Hprefix.
    simpl traverse. rewrite bind_lift, Hproc, bind_M, fetch_page_eq, Hget.
    by rewrite <- app_assoc.
  - intros e Hproc.
    rewrite main_loop_traverse, Hsplit, traverse_app, Hprefix.
    simpl traverse. by rewrite bind_lift, Hproc.
Qed.

(** ** X9: the guards before each index *)

(** X9. No run ends in [IndexError]: [validate_arguments] checks the
    number of arguments, the locator reads cells 2 and 4 only of rows with
    more than three cells, and [main] hands the row extractor only rows
    with more than one cell. An exception that ends a run comes from a
    missing anchor or href, and the run has then written nothing. *)
Theorem no_run_raises_index_error `{Python} `{Web} `{Disk}
    (args : list pystr) (t : list event) (e : exception) :
  main args [] = (t, Raise e)
  → e ≠ IndexError ∧ nothing_written t.
Proof.
  intros Hmain. split.
  - revert Hmain. rewrite main_eq.
    destruct (validate_arguments_cases args [])
      as [(input_value & csv_file & ->)| ->]; [|done].
    destruct (district_url input_value []) as [t2 r2] eqn:Hurl.
    apply district_url_cases in Hurl as (_ & Hraise & _).
    destruct r2 as [url| |e2].
    + destruct (http_get url) as [soup|]; [|done].
      destruct (traverse _ [] [] _) as [t3 r3] eqn:Hloop.
      destruct r3 as [[D P]| |e3]; simpl; [|done|].
      { case_bool_decide; [done|].
        by destruct (disk_failure csv_file _) as [[|n]|]. }
      intros [= _ ->].
      apply traverse_Raise in Hloop as (row & Hin & Hproc).
      apply list_elem_of_filter in Hin as [Hrow _].
      apply Is_true_true in Hrow.
      destruct (process_data_row row Hrow) as (c1 & c2 & _ & _ & _ & Heq).
      rewrite Heq in Hproc.
      destruct (find a_tag any_attrs c1) as [a|]; [|by injection Hproc as <-].
      destruct (attr_href (node_attrs a)); [done|by injection Hproc as <-].
    + done.
    + intros [= _ ->]. by destruct (Hraise e eq_refl) as [ -> | -> ].
  - by eapply main_writes_only_at_the_end.
Qed.

(** ** X10: where the requests go *)

(** X10. Every page a run requests is either the URL given as input or a
    URL under the site prefix; the only URL probed is the input. A run
    started with a district name probes nothing and requests only URLs
    under the site prefix, whatever the pages hold. *)
Theorem requests_stay_on_site `{Python} `{Web} `{Disk}
    (args : list pystr) (input_value csv_file : pystr)
    (t : list event) (r : result unit) :
  validate_arguments args [] = ([], Ok (input_value, csv_file))
  → main args [] = (t, r)
  → Forall (λ url, url = input_value ∨ under_site url) (requested t)
    ∧ Forall (λ url, url = input_value) (probed t)
    ∧ (contains volby_cz input_value = false
       → Forall under_site (requested t) ∧ probed t = []).
Proof.
  intros Hargs. rewrite main_eq, Hargs.
  destruct (district_url input_value []) as [t2 r2] eqn:Hurl.
  assert (Hstep : Forall (λ url, url = input_value ∨ under_site url)
                    (requested t2)
                  ∧ Forall (λ url, url = input_value) (probed t2)
                  ∧ (contains volby_cz input_value = false
                     → Forall under_site (requested t2) ∧ probed t2 = []
                       ∧ ∀ url, r2 = Ok url → under_site url)
                  ∧ ∀ url, r2 = Ok url
                           → url = input_value ∨ under_site url).
  { pose proof Hurl as Hcases.
    apply district_url_cases in Hcases as (Ht2 & _ & Hok).
    split; [|split; [|split; [|exact Hok]]].
    - destruct Ht2 as [ -> | [ -> | -> ]]; simpl; [constructor..|].
      constructor; [right; apply base_url_under_site|constructor].
    - destruct Ht2 as [ -> | [ -> | -> ]]; simpl; by repeat constructor.
    - intros Hname. rewrite district_url_eq, Hname in Hurl.
      rewrite get_url_from_name_eq in Hurl.
      destruct (str_isdigit input_value).
      { injection Hurl as <- <-. by repeat split. }
      injection Hurl as <- <-. simpl.
      split; [repeat constructor; apply base_url_under_site|].
      split; [done|]. intros url.
      destruct (http_get BASE_URL) as [soup|]; [|done].
      destruct (locate_cases input_value soup)
        as [[href Hl]|[Hl|[Hl|Hl]]]; rewrite Hl; try done.
      intros [= <-]. by exists href. }
  destruct Hstep as (Hreq & Hprobe & Hname & Hok).
  assert (Hend : ∀ url urls (t : list event),
            r2 = Ok url → Forall under_site urls
            → requested t = requested ((t2 ++ [Get url]) ++ (Get <$> urls))
            → probed t = probed ((t2 ++ [Get url]) ++ (Get <$> urls))
            → Forall (λ url, url = input_value ∨ under_site url) (requested t)
              ∧ Forall (λ url, url = input_value) (probed t)
              ∧ (contains volby_cz input_value = false
                 → Forall under_site (requested t) ∧ probed t = [])).
  { intros url urls t' -> Hurls -> ->.
    rewrite !requested_app, !probed_app, requested_gets, probed_gets.
    simpl. rewrite !app_nil_r.
    split; [|split; [done|]].
    - rewrite !Forall_app. split; [split; [done|]|].
      + constructor; [by apply Hok|constructor].
      + eapply Forall_impl; [exact Hurls|]. by right.
    - intros Hn. destruct (Hname Hn) as (Hr & Hp & Hu).
      split; [|done]. rewrite !Forall_app. split; [split; [done|]|done].
      constructor; [by apply Hu|constructor]. }
  destruct r2 as [url| |];
    [|intros [= <- <-]; split; [done|]; split; [done|];
      intros Hn; by destruct (Hname Hn) as (? & ? & _)..].
  destruct (http_get url) as [soup|].
  - destruct (traverse _ [] [] _) as [t3 r3] eqn:Hloop.
    apply traverse_requests in Hloop as (urls & -> & Hurls).
    destruct (finish_trace csv_file
                ((t2 ++ [Get url]) ++ (Get <$> urls), r3))
      as (w & Hw & Hwr & Hwp).
    intros Hfin. rewrite Hfin in Hw. simpl in Hw. subst t.
    apply (Hend url urls); try done.
    + by rewrite (requested_app _ w), Hwr, app_nil_r.
    + by rewrite (probed_app _ w), Hwp, app_nil_r.
  - intros [= <- <-]. apply (Hend url []); try done; by rewrite app_nil_r.
Qed.

(** ** X5, X6, X7: a run that ends well *)

Section good_run.
Context `{Python} `{Web} `{Disk}.

Lemma main_Ok_steps (args : list pystr) (t : list event) :
  main args [] = (t, Ok tt)
  → ∃ input_value csv_file t2 url soup (visits : list visit),
      validate_arguments args [] = ([], Ok (input_value, csv_file))
      ∧ district_url input_value [] = (t2, Ok url)
      ∧ http_get url = Some soup
      ∧ v_row <$> visits = filter is_data_row (find_all tr any_attrs soup)
      ∧ Forall visit_ok visits
      ∧ visits ≠ []
      ∧ let csv_columns :=
          fixed_columns
            ++ ordered_party_names (mjoin (visit_pairs <$> visits)) in
        t = ((t2 ++ [Get url]) ++ (Get ∘ v_url <$> visits))
            ++ [WriteCsv csv_file csv_columns
                  (csv_row csv_columns <$> (visit_record <$> visits))].
Proof.
  intros (input_value & csv_file & t2 & url & soup & visits & Hargs & Hurl
          & Hget & Hrows & Hok & Hne & Hlast)%main_Ok.
  cbv zeta in Hlast. destruct Hlast as [_ ->].
  by exists input_value, csv_file, t2, url, soup, visits.
Qed.

Lemma csv_row_fixed (v : visit) (party_names : list pystr) :
  ∃ cells,
    csv_row (fixed_columns ++ party_names) (visit_record v)
    = v_code v :: v_name v :: cells
    ∧ length cells = (3 + length party_names)%nat.
Proof.
  unfold csv_row, fixed_columns. rewrite fmap_app, !fmap_cons.
  rewrite !visit_record_lookup. simpl.
  eexists. split; [done|]. simpl. by rewrite length_fmap.
Qed.

Lemma visit_record_key (v : visit) (key : pystr) :
  is_Some (visit_record v !! key)
  ↔ key ∈ fixed_columns ∨ key ∈ (visit_pairs v).*2.
Proof.
  rewrite visit_record_lookup. split.
  - intros Hsome. repeat case_decide; subst.
    + left. unfold fixed_columns. set_solver.
    + left. unfold fixed_columns. set_solver.
    + destruct (party_votes _ key) as [votes|] eqn:Hvotes.
      * right. apply party_votes_Some in Hvotes as [code Hin].
        unfold visit_pairs, district_of_page. simpl.
        apply list_elem_of_fmap. exists (code, key). split; [done|].
        apply list_elem_of_fmap. by exists (code, key, votes).
      * left. rewrite extract_district_stats_lookup in Hsome.
        unfold fixed_columns.
        repeat case_decide; subst; [set_solver..|by destruct Hsome].
  - intros [Hfixed|Hparty].
    + rewrite <- visit_record_lookup. by apply visit_record_fixed.
    + repeat (case_decide; [done|]).
      destruct (party_votes _ key) as [votes|] eqn:Hvotes; [done|].
      exfalso. rewrite party_votes_None in Hvotes.
      unfold visit_pairs, district_of_page in Hparty. simpl in Hparty.
      apply list_elem_of_fmap in Hparty as ([c n] & -> & Hin).
      apply list_elem_of_fmap in Hin as ([[c' n'] votes] & [= -> ->] & Hin).
      by apply (Hvotes c' votes).
Qed.
End good_run.

(** X5. A run that ends well has requested, in this order: the index
    page, only when the input was a district name; the district page;
    and the results page of each data row of the district page, once per
    row and in the order of the rows. It probed the input, once, only
    when the input was a URL, and then the district page is that URL. *)
Theorem requests_of_a_good_run `{Python} `{Web} `{Disk}
    (args : list pystr) (t : list event) :
  main args [] = (t, Ok tt)
  → ∃ input_value csv_file url soup (visits : list visit),
      validate_arguments args [] = ([], Ok (input_value, csv_file))
      ∧ http_get url = Some soup
      ∧ v_row <$> visits = filter is_data_row (find_all tr any_attrs soup)
      ∧ Forall visit_ok visits
      ∧ requested t
        = (if contains volby_cz input_value then [] else [BASE_URL])
          ++ url :: (v_url <$> visits)
      ∧ probed t
        = (if contains volby_cz input_value then [input_value] else [])
      ∧ (contains volby_cz input_value = true → url = input_value).
Proof.
  intros (input_value & csv_file & t2 & url & soup & visits & Hargs & Hurl
          & Hget & Hrows & Hok & _ & Ht)%main_Ok_steps.
  exists input_value, csv_file, url, soup, visits.
  split; [done|]. split; [done|]. split; [done|]. split; [done|].
  cbv zeta in Ht. subst t.
  rewrite !requested_app, !probed_app. rewrite (list_fmap_compose v_url Get).
  rewrite requested_gets, probed_gets. simpl. rewrite !app_nil_r.
  rewrite district_url_eq in Hurl.
  destruct (contains volby_cz input_value).
  - destruct (http_head input_value); [|done]. injection Hurl as <- <-. done.
  - rewrite get_url_from_name_eq in Hurl.
    destruct (str_isdigit input_value); [done|]. injection Hurl as <- _.
    done.
Qed.

(** X6. The table a run writes is rectangular: its header is the five
    fixed columns followed by the party names, every row has as many
    cells as the header, and there is one row per data row of the
    district page, in the order of the page. The first two cells of a row
    are the code and the name the row extractor returned for it. *)
Theorem exported_table_shape `{Python} `{Web} `{Disk}
    (args : list pystr) (t : list event) :
  main args [] = (t, Ok tt)
  → ∃ csv_file url soup (visits : list visit) party_names rows,
      last t = Some (WriteCsv csv_file (fixed_columns ++ party_names) rows)
      ∧ http_get url = Some soup
      ∧ v_row <$> visits = filter is_data_row (find_all tr any_attrs soup)
      ∧ Forall visit_ok visits
      ∧ length rows
        = length (filter is_data_row (find_all tr any_attrs soup))
      ∧ Forall (λ row, length row = (5 + length party_names)%nat) rows
      ∧ ∀ i v, visits !! i = Some v
               → ∃ cells, rows !! i = Some (v_code v :: v_name v :: cells).
Proof.
  intros (input_value & csv_file & t2 & url & soup & visits & Hargs & Hurl
          & Hget & Hrows & Hok & _ & Ht)%main_Ok_steps.
  cbv zeta in Ht. subst t.
  eexists csv_file, url, soup, visits, _, _.
  split; [apply last_snoc|]. split; [done|]. split; [done|].
  split; [done|]. split; [|split].
  - by rewrite <- Hrows, !length_fmap.
  - apply Forall_fmap, Forall_fmap, Forall_forall. intros v _.
    destruct (csv_row_fixed v
                (ordered_party_names (mjoin (visit_pairs <$> visits))))
      as (cells & Hcells & Hlen).
    unfold compose. rewrite Hcells. simpl. by rewrite Hlen.
  - intros i v Hv.
    destruct (csv_row_fixed v
                (ordered_party_names (mjoin (visit_pairs <$> visits))))
      as (cells & Hcells & _).
    exists cells. by rewrite !list_lookup_fmap, Hv, <- Hcells.
Qed.

(** X7. Nothing a district's record holds is left out of the table: every
    key of every record, so every party name found on any results page,
    is a column of the header. The keys of a record are the five fixed
    columns and the names of the parties on its page. *)
Theorem every_record_key_is_a_column `{Python} `{Web} `{Disk}
    (args : list pystr) (t : list event) :
  main args [] = (t, Ok tt)
  → ∃ csv_file (visits : list visit) header,
      last t = Some (WriteCsv csv_file header
                       (csv_row header <$> (visit_record <$> visits)))
      ∧ Forall visit_ok visits
      ∧ ∀ v, v ∈ visits →
          (∀ key, is_Some (visit_record v !! key)
                  ↔ key ∈ fixed_columns ∨ key ∈ (visit_pairs v).*2)
          ∧ (∀ key, is_Some (visit_record v !! key) → key ∈ header)
          ∧ (∀ row code name votes,
               row ∈ find_all tr any_attrs (v_page v)
               → extract_party_data row = Some (code, name, votes)
               → name ∈ header).
Proof.
  intros (input_value & csv_file & t2 & url & soup & visits & Hargs & Hurl
          & Hget & Hrows & Hok & _ & Ht)%main_Ok_steps.
  cbv zeta in Ht. subst t.
  eexists csv_file, visits, _.
  split; [apply last_snoc|]. split; [done|].
  intros v Hv.
  assert (Hcol : ∀ name, name ∈ (visit_pairs v).*2
            → name ∈ fixed_columns
                     ++ ordered_party_names (mjoin (visit_pairs <$> visits))).
  { intros name Hname. apply elem_of_app. right.
    apply elem_of_ordered_party_names.
    apply list_elem_of_fmap in Hname as ([c n] & -> & Hin).
    apply list_elem_of_fmap. exists (c, n). split; [done|].
    apply list_elem_of_join. exists (visit_pairs v). split; [done|].
    by apply list_elem_of_fmap_2. }
  split; [apply visit_record_key|]. split.
  - intros key [Hfixed|Hparty]%visit_record_key; [|by apply Hcol].
    apply elem_of_app. by left.
  - intros row code name votes Hrow Hdata. apply Hcol.
    rewrite visit_pairs_eq. apply list_elem_of_fmap. exists (code, name).
    split; [done|]. apply list_elem_of_fmap. exists (code, name, votes).
    split; [done|]. rewrite sort_by_perm. apply list_elem_of_omap.
    by exists row.
Qed.

(** ** X8: the two sorts *)

Section sort_composition.
Context {A B : Type} (keyA : A → Z) (keyB : B → Z) (f : A → B).
Hypothesis key_f : ∀ x, keyB (f x) = keyA x.

Lemma insert_by_fmap (x : A) (l : list A) :
  f <$> insert_by keyA x l = insert_by keyB (f x) (f <$> l).
Proof.
  induction l as [|y l IH]; [done|].
  rewrite fmap_cons. simpl insert_by. rewrite !key_f.
  case_bool_decide; [done|]. by rewrite fmap_cons, IH.
Qed.

Lemma sort_by_fmap (l : list A) :
  f <$> sort_by keyA l = sort_by keyB (f <$> l).
Proof.
  induction l as [|x l IH]; [done|].
  rewrite fmap_cons. simpl sort_by. by rewrite insert_by_fmap, IH.
Qed.
End sort_composition.

Lemma filter_join {A} (P : A → Prop) `{!∀ x, Decision (P x)}
    (ls : list (list A)) :
  filter P (mjoin ls) = mjoin (filter P <$> ls).
Proof.
  induction ls as [|l ls IH]; [done|]. simpl. by rewrite filter_app, IH.
Qed.

(** Sorting the parts first does not change the sorted whole. *)
Lemma sort_by_join_sorted {A} (key : A → Z) (ls : list (list A)) :
  sort_by key (mjoin (sort_by key <$> ls)) = sort_by key (mjoin ls).
Proof.
  apply stable_sort_unique; [apply sort_by_sorted|].
  intros k. rewrite sort_by_stable, !filter_join. f_equal.
  rewrite <- list_fmap_compose. apply list_fmap_ext.
  intros i l _. simpl. apply sort_by_stable.
Qed.

(** X8. The sort of each district's parties (line 192) does not change
    the party columns: the global party order is the one obtained from
    the pairs of all pages in document order, without sorting page by
    page. The code-sorted accumulation itself is the same list either
    way. *)
Theorem district_sort_leaves_columns_unchanged `{Python}
    (pages : list node) :
  let sorted_first := (λ soup, (district_of_page soup).2) <$> pages in
  let as_found := (λ soup, code_and_name <$> party_rows soup) <$> pages in
  sort_by fst (mjoin sorted_first) = sort_by fst (mjoin as_found)
  ∧ ordered_party_names (mjoin sorted_first)
    = ordered_party_names (mjoin as_found).
Proof.
  cbv zeta.
  assert (Hsorted : (λ soup, (district_of_page soup).2) <$> pages
                    = sort_by fst
                        <$> ((λ soup, code_and_name <$> party_rows soup)
                               <$> pages)).
  { rewrite <- list_fmap_compose. apply list_fmap_ext. intros i soup _.
    unfold district_of_page. simpl.
    apply (sort_by_fmap party_code fst code_and_name). by intros [[c n] v]. }
  assert (Heq : sort_by fst
                  (mjoin ((λ soup, (district_of_page soup).2) <$> pages))
                = sort_by fst
                    (mjoin ((λ soup, code_and_name <$> party_rows soup)
                              <$> pages))).
  { rewrite Hsorted. apply sort_by_join_sorted. }
  split; [exact Heq|].
  by rewrite !ordered_party_names_first_occurrences, Heq.
Qed.

(** ** X11: duplicate columns *)

(** X11. The header has no duplicate column exactly when no party found
    bears the name of a fixed column; the party columns themselves never
    repeat. *)
Theorem header_without_duplicates (all_ordered_parties : list (Z * pystr)) :
  NoDup (fixed_columns ++ ordered_party_names all_ordered_parties)
  ↔ ∀ code name, (code, name) ∈ all_ordered_parties
                 → name ∉ fixed_columns.
Proof.
  rewrite NoDup_app. split.
  - intros (_ & Hdisjoint & _) code name Hin Hfixed.
    apply (Hdisjoint name Hfixed), elem_of_ordered_party_names.
    apply list_elem_of_fmap. by exists (code, name).
  - intros Hnone. split; [|split].
    + unfold fixed_columns. apply (bool_decide_unpack _). by vm_compute.
    + intros name Hfixed Hin%elem_of_ordered_party_names.
      apply list_elem_of_fmap in Hin as ([c n] & -> & Hin).
      by apply (Hnone c n).
    + apply NoDup_ordered_party_names.
Qed.

(** ** X12: what [fetch_district_data] returns *)

Lemma dom_fold_parties (district_data : gmap pystr pystr)
    (party_list : list (Z * pystr * pystr)) :
  dom (fold_parties district_data party_list)
  = dom district_data ∪ list_to_set ((code_and_name <$> party_list).*2).
Proof.
  unfold fold_parties. revert district_data.
  induction party_list as [|[[c n] v] l IH]; intros d.
  - simpl. set_solver.
  - simpl foldl. rewrite IH, dom_insert_L. simpl. set_solver.
Qed.

Lemma length_omap_le {A B} (f : A → option B) (l : list A) :
  (length (omap f l) ≤ length l)%nat.
Proof.
  induction l as [|x l IH]; [done|]. simpl.
  change (list_omap A B f l) with (omap f l).
  destruct (f x); simpl; lia.
Qed.

(** X12. [fetch_district_data] requests its URL once. When the page cannot
    be fetched it exits with [FetchError]. Otherwise it returns a
    dictionary and a list such that: the list is in ascending code order
    and holds exactly the (code, name) pairs of the rows that yield a
    triple, so no more entries than the page has rows; and the keys of the
    dictionary are the three statistics and the names in the list. *)
Theorem fetch_district_data_result `{Python} `{Web}
    (url : pystr) (t : list event) :
  match http_get url with
  | None => fetch_district_data url t = (t ++ [Get url], Exit FetchError)
  | Some soup =>
      ∃ district_data ordered_parties,
        fetch_district_data url t
        = (t ++ [Get url], Ok (district_data, ordered_parties))
        ∧ StronglySorted (key_le fst) ordered_parties
        ∧ ordered_parties
          ≡ₚ code_and_name
               <$> omap extract_party_data (find_all tr any_attrs soup)
        ∧ length ordered_parties ≤ length (find_all tr any_attrs soup)
        ∧ dom district_data
          = {[k_registered; k_envelopes; k_valid]}
            ∪ list_to_set (ordered_parties.*2)
  end%nat.
Proof.
  unfold fetch_district_data. rewrite bind_M, fetch_page_eq.
  destruct (http_get url) as [soup|]; [|done].
  eexists _, _. split; [done|]. simpl.
  assert (Hsort : code_and_name <$> sort_by party_code (party_rows soup)
                  = sort_by fst (code_and_name <$> party_rows soup)).
  { apply (sort_by_fmap party_code fst code_and_name). by intros [[c n] v]. }
  split; [rewrite Hsort; apply sort_by_sorted|].
  split; [by rewrite sort_by_perm, party_rows_omap|].
  split.
  - rewrite length_fmap.
    rewrite (Permutation_length (sort_by_perm party_code (party_rows soup))).
    rewrite party_rows_omap. apply length_omap_le.
  - rewrite dom_fold_parties.
    assert (dom (extract_district_stats soup)
            = ({[k_registered; k_envelopes; k_valid]} : gset pystr)) as ->;
      [|done].
    unfold extract_district_stats. rewrite !dom_insert_L, dom_empty_L.
    set_solver.
Qed.

(** ** X13: the case of the district name *)

(** X13. The district locator reads the name only through [lower()]:
    two names that are not numeric and have the same lowered form find
    the same URL, or fail alike. *)
Theorem locator_ignores_case `{Python} `{Web}
    (name1 name2 : pystr) (t : list event) :
  str_lower name1 = str_lower name2
  → str_isdigit name1 = false
  → str_isdigit name2 = false
  → get_url_from_name name1 t = get_url_from_name name2 t.
Proof.
  intros Hlower H1 H2. rewrite !get_url_from_name_eq, H1, H2. f_equal.
  destruct (http_get BASE_URL) as [soup|]; [|done].
  unfold locate.
  assert (Hrows : filter (row_matches name1) (index_rows soup)
                  = filter (row_matches name2) (index_rows soup)).
  { apply list_filter_iff. intros row. unfold row_matches.
    by rewrite Hlower. }
  by rewrite Hrows.
Qed.

(** ** X14: texts come out clean *)

Lemma strip_trimmed_id (s : pystr) : trimmed s → strip s = s.
Proof.
  intros [Hhead Hlast].
  assert (Hl : ∀ u : pystr,
             (∀ c, head u = Some c → isspace c = false) → lstrip u = u).
  { intros [|c u] Hu; [done|]. simpl. by rewrite (Hu c). }
  unfold strip, rstrip. rewrite (Hl s Hhead).
  rewrite Hl; [apply reverse_involutive|].
  intros c. rewrite head_reverse. apply Hlast.
Qed.

Lemma clean_idempotent (s : pystr) : clean (clean s) = clean s.
Proof.
  unfold clean.
  rewrite (strip_trimmed_id (remove_nbsp (strip s)))
    by apply remove_nbsp_trimmed, strip_trimmed.
  unfold remove_nbsp. rewrite list_filter_filter.
  apply list_filter_iff. naive_solver.
Qed.

(** X14. The texts the extractors return are already clean: trimming a
    party name again, or trimming a vote count or a statistic again and
    removing its non-breaking spaces, changes nothing. This holds for the
    sentinel ["N/A"] too. *)
Theorem extracted_texts_are_clean `{Python} :
  (∀ s, clean (clean s) = clean s)
  ∧ (∀ s, strip (strip s) = strip s)
  ∧ (∀ soup key value,
       extract_district_stats soup !! key = Some value
       → clean value = value)
  ∧ (∀ row code party_name votes,
       extract_party_data row = Some (code, party_name, votes)
       → strip party_name = party_name ∧ clean votes = votes).
Proof.
  split; [apply clean_idempotent|].
  split; [intros s; apply strip_trimmed_id, strip_trimmed|].
  split.
  - intros soup key value. rewrite extract_district_stats_lookup.
    assert (Hstat : ∀ cell, clean (stat_value cell) = stat_value cell).
    { intros [c|]; [apply clean_idempotent|]. by vm_compute. }
    repeat case_decide; intros [= <-]; apply Hstat.
  - intros row code party_name votes. unfold extract_party_data.
    repeat case_match; try done. intros [= _ <- <-].
    split; [apply strip_trimmed_id, strip_trimmed|apply clean_idempotent].
Qed.

(** ** X15: the order of the party columns *)

Lemma precedes_sublist (a b : pystr) (l : list pystr) :
  precedes a b l ↔ [a; b] `sublist_of` l.
Proof.
  unfold precedes. rewrite sublist_cons_l. split.
  - intros (l1 & l2 & l3 & ->). exists l1, (l2 ++ b :: l3).
    split; [done|]. apply sublist_cons_l. exists l2, l3.
    split; [done|apply sublist_nil_l].
  - intros (l1 & k & -> & (l2 & l3 & -> & _)%sublist_cons_l).
    by exists l1, l2, l3.
Qed.

Lemma precedes_filter (P : pystr → Prop) `{!∀ x, Decision (P x)}
    (a b : pystr) (l : list pystr) :
  precedes a b (filter P l) → precedes a b l ∧ P b.
Proof.
  intros Hp. split.
  - apply precedes_sublist. etrans; [by apply precedes_sublist|].
    apply sublist_filter.
  - destruct Hp as (l1 & l2 & l3 & Hl).
    assert (b ∈ filter P l) as Hb by (rewrite Hl; set_solver).
    by apply list_elem_of_filter in Hb as [? _].
Qed.

Lemma first_occurrences_by_code (l : list (Z * pystr)) (a b : pystr) :
  StronglySorted (key_le fst) l
  → precedes a b (first_occurrences (l.*2))
  → ∃ code_a, (code_a, a) ∈ l ∧ ∀ code_b, (code_b, b) ∈ l → code_a ≤ code_b.
Proof.
  induction 1 as [|[c n] l Hsorted IH Hall]; simpl.
  - by intros ([|??] & ? & ? & ?).
  - intros ([|x l1] & l2 & l3 & Heq).
    + injection Heq as <- _. exists c. split; [left|].
      intros cb [[= <- _]|Hin]%elem_of_cons; [done|].
      rewrite Forall_forall in Hall. by apply (Hall _ Hin).
    + injection Heq as <- Heq.
      destruct (precedes_filter (λ y, y ≠ n) a b (first_occurrences l.*2))
        as [Hp Hb]; [by exists l1, l2, l3|].
      destruct (IH Hp) as (ca & Hin & Hle). exists ca. split; [by right|].
      intros cb [[= _ ->]|Hin']%elem_of_cons; [done|by apply Hle].
Qed.

(** X15. The party columns are in the order of each party's smallest
    code: when the column of one name comes before the column of
    another, the first name was found with a code that is at most every
    code the second was found with. *)
Theorem party_columns_follow_smallest_code
    (all_ordered_parties : list (Z * pystr)) (a b : pystr) :
  precedes a b (ordered_party_names all_ordered_parties)
  → ∃ code_a,
      (code_a, a) ∈ all_ordered_parties
      ∧ ∀ code_b, (code_b, b) ∈ all_ordered_parties → code_a ≤ code_b.
Proof.
  rewrite ordered_party_names_first_occurrences.
  intros (ca & Hin & Hle)%first_occurrences_by_code;
    [|apply sort_by_sorted].
  exists ca. split; [by rewrite sort_by_perm in Hin|].
  intros cb Hb. apply Hle. by rewrite sort_by_perm.
Qed.

(** ** The further statements at the concrete sites *)

Lemma validate_arguments_accepts_witness :
  @validate_arguments ascii_python (str <$> ["prog"; "Praha"; "OUT.CSV"]) []
  = ([], Ok (str "Praha", str "OUT.CSV"))
  ∧ @main ascii_python Site.web Site.disk (str <$> ["prog"; "Praha"]) []
    = ([], Exit UsageError).
Proof.
  split.
  - apply (proj1 (@validate_arguments_accepts ascii_python Site.web Site.disk _ [])).
    split; [by exists (str "prog")|]. split; [done|]. split.
    + intros Hsite. apply (contains_spec volby_cz (str "Praha")) in Hsite.
      by vm_compute in Hsite.
    + by exists (str "out").
  - apply (proj1 (proj2 (@validate_arguments_accepts ascii_python Site.web Site.disk
                           (str <$> ["prog"; "Praha"]) []))).
    by intros input_value csv_file [[program Hargs] _].
Defined.

Lemma url_input_is_probed_first_witness :
  let input := str "https://www.volby.cz/down" in
  @validate_arguments ascii_python (str <$> ["prog"; "https://www.volby.cz/down"; "out.csv"]) []
  = ([], Ok (input, str "out.csv"))
  ∧ contains volby_cz input = true
  ∧ Broken.run ["prog"; "https://www.volby.cz/down"; "out.csv"]
    = ([Head input], Exit Unreachable).
Proof.
  cbv zeta.
  assert (Hargs : @validate_arguments ascii_python
                    (str <$> ["prog"; "https://www.volby.cz/down"; "out.csv"])
                    []
                  = ([], Ok (str "https://www.volby.cz/down", str "out.csv")))
    by (vm_compute; reflexivity).
  assert (Hsite : contains volby_cz (str "https://www.volby.cz/down") = true)
    by (vm_compute; reflexivity).
  split; [exact Hargs|]. split; [exact Hsite|].
  destruct (@url_input_is_probed_first ascii_python Broken.web Broken.disk _ _ _
              Hargs Hsite) as (t & r & Hrun & _ & Hdown & _).
  destruct Hdown as [-> ->]; [vm_compute; reflexivity|]. exact Hrun.
Defined.


Lemma first_failure_ends_traversal_witness :
  let row1 := Site.municipality_row "ps311?obec=1" "500011" "Praha 1" in
  let row9 := Site.municipality_row "ps311?obec=9" "500099" "Praha 9" in
  let row2 := Site.municipality_row "ps311?obec=2" "500022" "Praha 2" in
  @main_loop ascii_python Broken.web ([row1] ++ row9 :: [row2]) [] [] []
  = ([Get (SITE ++ str "ps311?obec=1"); Get (SITE ++ str "ps311?obec=9")],
     Exit FetchError).
Proof.
  cbv zeta.
  pose proof (@first_failure_ends_traversal ascii_python Broken.web
                [Site.municipality_row "ps311?obec=1" "500011" "Praha 1"]
                [Site.municipality_row "ps311?obec=2" "500022" "Praha 2"]
                (Site.municipality_row "ps311?obec=9" "500099" "Praha 9")
                [Visit (Site.municipality_row "ps311?obec=1" "500011" "Praha 1")
                   (str "500011") (str "Praha 1")
                   (SITE ++ str "ps311?obec=1") Site.results_1]
                []) as Hstop.
  destruct Hstop as [Hfetch _].
  - vm_compute. reflexivity.
  - repeat constructor.
  - vm_compute. reflexivity.
  - apply (Hfetch (str "500099") (str "Praha 9")
             (SITE ++ str "ps311?obec=9")); vm_compute; reflexivity.
Defined.

Lemma requests_of_a_good_run_witness :
  let t := (Site.run ["prog"; "praha"; "out.csv"]).1 in
  @main ascii_python Site.web Site.disk (str <$> ["prog"; "praha"; "out.csv"]) []
  = (t, Ok tt)
  ∧ ∃ url (visits : list visit),
      requested t = [BASE_URL] ++ url :: (v_url <$> visits)
      ∧ probed t = [].
Proof.
  cbv zeta.
  assert (Hrun : @main ascii_python Site.web Site.disk
                   (str <$> ["prog"; "praha"; "out.csv"]) []
                 = ((Site.run ["prog"; "praha"; "out.csv"]).1, Ok tt))
    by (vm_compute; reflexivity).
  split; [exact Hrun|].
  destruct (@requests_of_a_good_run ascii_python Site.web Site.disk _ _ Hrun)
    as (input_value & csv_file & url & soup & visits & Hargs & _ & _ & _
        & Hreq & Hprobe & _).
  assert (input_value = str "praha") as ->.
  { assert (Hv : @validate_arguments ascii_python
                   (str <$> ["prog"; "praha"; "out.csv"]) []
                 = ([], Ok (str "praha", str "out.csv")))
      by (vm_compute; reflexivity).
    rewrite Hv in Hargs. by injection Hargs as <- _. }
  exists url, visits. split; [exact Hreq|exact Hprobe].
Defined.

Lemma exported_table_shape_witness :
  let t := (Site.run ["prog"; "praha"; "out.csv"]).1 in
  @main ascii_python Site.web Site.disk (str <$> ["prog"; "praha"; "out.csv"]) []
  = (t, Ok tt)
  ∧ ∃ csv_file party_names rows,
      last t = Some (WriteCsv csv_file (fixed_columns ++ party_names) rows)
      ∧ Forall (λ row, length row = (5 + length party_names)%nat) rows.
Proof.
  cbv zeta.
  assert (Hrun : @main ascii_python Site.web Site.disk
                   (str <$> ["prog"; "praha"; "out.csv"]) []
                 = ((Site.run ["prog"; "praha"; "out.csv"]).1, Ok tt))
    by (vm_compute; reflexivity).
  split; [exact Hrun|].
  destruct (@exported_table_shape ascii_python Site.web Site.disk _ _ Hrun)
    as (csv_file & url & soup & visits & party_names & rows & Hlast & _ & _
        & _ & _ & Hrect & _).
  exists csv_file, party_names, rows. split; assumption.
Defined.

Lemma every_record_key_is_a_column_witness :
  let t := (Site.run ["prog"; "praha"; "out.csv"]).1 in
  @main ascii_python Site.web Site.disk (str <$> ["prog"; "praha"; "out.csv"]) []
  = (t, Ok tt)
  ∧ ∃ csv_file (visits : list visit) header,
      last t = Some (WriteCsv csv_file header
                       (csv_row header
                          <$> (@visit_record ascii_python <$> visits)))
      ∧ ∀ v key, v ∈ visits
                 → is_Some (@visit_record ascii_python v !! key)
                 → key ∈ header.
Proof.
  cbv zeta.
  assert (Hrun : @main ascii_python Site.web Site.disk
                   (str <$> ["prog"; "praha"; "out.csv"]) []
                 = ((Site.run ["prog"; "praha"; "out.csv"]).1, Ok tt))
    by (vm_compute; reflexivity).
  split; [exact Hrun|].
  destruct (@every_record_key_is_a_column ascii_python Site.web Site.disk _ _ Hrun)
    as (csv_file & visits & header & Hlast & _ & Hkeys).
  exists csv_file, visits, header. split; [exact Hlast|].
  intros v key Hv. by apply (Hkeys v Hv).
Defined.

Lemma district_sort_leaves_columns_unchanged_witness :
  ordered_party_names
    (mjoin ((λ soup, code_and_name <$> @party_rows ascii_python soup)
              <$> [Site.results_1; Site.results_2]))
  = [str "Party A"; str "Party B"].
Proof.
  rewrite <- (proj2 (@district_sort_leaves_columns_unchanged ascii_python
                       [Site.results_1; Site.results_2])).
  vm_compute. reflexivity.
Defined.

Lemma no_run_raises_index_error_witness :
  Broken.run ["prog"; "https://www.volby.cz/noanchor"; "out.csv"]
  = ([Head (str "https://www.volby.cz/noanchor");
      Get (str "https://www.volby.cz/noanchor");
      Get (SITE ++ str "ps311?obec=1")], Raise AttributeError)
  ∧ AttributeError ≠ IndexError.
Proof.
  assert (Hrun : @main ascii_python Broken.web Broken.disk
                   (str <$> ["prog"; "https://www.volby.cz/noanchor";
                             "out.csv"]) []
                 = ([Head (str "https://www.volby.cz/noanchor");
                     Get (str "https://www.volby.cz/noanchor");
                     Get (SITE ++ str "ps311?obec=1")],
                    Raise AttributeError))
    by (vm_compute; reflexivity).
  split; [exact Hrun|].
  exact (proj1 (@no_run_raises_index_error ascii_python Broken.web Broken.disk _ _ _
                  Hrun)).
Defined.

Lemma requests_stay_on_site_witness :
  Forall under_site
    (requested (Site.run ["prog"; "praha"; "out.csv"]).1)
  ∧ probed (Site.run ["prog"; "praha"; "out.csv"]).1 = [].
Proof.
  assert (Hargs : @validate_arguments ascii_python
                    (str <$> ["prog"; "praha"; "out.csv"]) []
                  = ([], Ok (str "praha", str "out.csv")))
    by (vm_compute; reflexivity).
  assert (Hrun : @main ascii_python Site.web Site.disk
                   (str <$> ["prog"; "praha"; "out.csv"]) []
                 = ((Site.run ["prog"; "praha"; "out.csv"]).1, Ok tt))
    by (vm_compute; reflexivity).
  destruct (@requests_stay_on_site ascii_python Site.web Site.disk _ _ _ _ _
              Hargs Hrun) as (_ & _ & Hname).
  apply Hname. vm_compute. reflexivity.
Defined.

Lemma header_without_duplicates_witness :
  NoDup (fixed_columns
           ++ ordered_party_names [(2, str "Party B"); (1, str "Party A")])
  ∧ ¬ NoDup (fixed_columns ++ ordered_party_names [(1, k_registered)]).
Proof.
  split.
  - apply header_without_duplicates. intros code name Hin Hfixed.
    rewrite !elem_of_cons, elem_of_nil in Hin.
    unfold fixed_columns in Hfixed.
    rewrite !elem_of_cons, elem_of_nil in Hfixed.
    destruct Hin as [[= -> ->]|[[= -> ->]|[]]];
      by destruct Hfixed as [?|[?|[?|[?|[?|[]]]]]].
  - intros Hnodup.
    apply (proj1 (header_without_duplicates [(1, k_registered)]) Hnodup
             1 k_registered); [left|].
    unfold fixed_columns. set_solver.
Defined.

Lemma fetch_district_data_result_witness :
  ∃ district_data ordered_parties,
    @fetch_district_data ascii_python Site.web (SITE ++ str "ps311?obec=1") []
    = ([Get (SITE ++ str "ps311?obec=1")],
       Ok (district_data, ordered_parties))
    ∧ StronglySorted (key_le fst) ordered_parties.
Proof.
  pose proof (@fetch_district_data_result ascii_python Site.web
                (SITE ++ str "ps311?obec=1") []) as Hres.
  assert (Hget : @http_get Site.web (SITE ++ str "ps311?obec=1")
                 = Some Site.results_1) by (vm_compute; reflexivity).
  rewrite Hget in Hres.
  destruct Hres as (d & op & Hrun & Hsorted & _).
  by exists d, op.
Defined.

Lemma locator_ignores_case_witness :
  @get_url_from_name ascii_python Site.web (str "PRAHA") []
  = @get_url_from_name ascii_python Site.web (str "praha") [].
Proof.
  apply (@locator_ignores_case ascii_python Site.web); vm_compute; reflexivity.
Defined.

Lemma extracted_texts_are_clean_witness :
  clean (clean ([nbsp] ++ str " 1" ++ [nbsp] ++ str "000 "))
  = clean ([nbsp] ++ str " 1" ++ [nbsp] ++ str "000 ")
  ∧ clean ([nbsp] ++ str " 1" ++ [nbsp] ++ str "000 ") = str "1000".
Proof.
  split.
  - apply (proj1 (@extracted_texts_are_clean ascii_python)).
  - vm_compute. reflexivity.
Defined.

Lemma party_columns_follow_smallest_code_witness :
  let found := [(5, str "B"); (3, str "A"); (1, str "B")] in
  precedes (str "B") (str "A") (ordered_party_names found)
  ∧ ∃ code_b, (code_b, str "B") ∈ found
              ∧ ∀ code_a, (code_a, str "A") ∈ found → code_b ≤ code_a.
Proof.
  cbv zeta.
  assert (Hp : precedes (str "B") (str "A")
                 (ordered_party_names
                    [(5, str "B"); (3, str "A"); (1, str "B")])).
  { exists [], [], []. vm_compute. reflexivity. }
  split; [exact Hp|].
  exact (party_columns_follow_smallest_code _ _ _ Hp).
Defined.
